(** * util/generate-ami-list.py: discovery, merge and report of AMI ids

    A shallow embedding of [src/util/generate-ami-list.py] and the
    properties of its four stages: per-region image discovery
    ([get_ami_list]), the merge into the CloudFormation template
    ([update_cfn_template]), the text report ([convert_json_to_txt]) and
    the command line driver ([main]).

    Python values are modelled as follows.
    - [str] is [string]; comparison of strings is [String.compare]
      (lexicographic on character codes, as Python compares [str]).
    - [dict] and [OrderedDict] are association lists in insertion order
      ([dict V]); the order is what [items()] iterates, which the report and
      the sorted merge depend on.  Keys are unique in every dict the program
      builds or loads ([dict_wf]); a statement that needs it of an argument
      says so.  The two plain dicts of [get_ami_list] are sorted before
      their order is observed.
    - The responses of the provider are well formed: ["Images"] is a list
      of entries with a ["Name"] and an ["ImageId"].
    - [print], the two files and exceptions are threaded through a small
      state-and-error monad [M] over a [world].
    - boto3 is an oracle ([provider]) answering each request with a response
      or with an exception. *)

From Stdlib Require Import String Ascii List Bool Arith NArith Lia.
From Stdlib Require Import Sorting.Sorted Sorting.Permutation.
Import ListNotations.
Local Open Scope list_scope.
Local Open Scope string_scope.

(** ** Strings *)

(** The line terminator ["\n"]. *)
Definition nl : string := String (ascii_of_nat 10) EmptyString.

(** [needle in hay] on Python strings: [needle] occurs in [hay]. *)
Fixpoint str_in (needle hay : string) : bool :=
  String.prefix needle hay ||
  match hay with
  | EmptyString => false
  | String _ rest => str_in needle rest
  end.

(** What [str_in] decides: [needle] is a contiguous part of [hay]. *)
Definition is_substring (needle hay : string) : Prop :=
  exists before after, hay = before ++ needle ++ after.

(** Lexicographic order on strings by character code. *)
Inductive str_lt : string -> string -> Prop :=
| str_lt_empty : forall c s, str_lt EmptyString (String c s)
| str_lt_head : forall a b s t,
    (N_of_ascii a < N_of_ascii b)%N -> str_lt (String a s) (String b t)
| str_lt_tail : forall a s t, str_lt s t -> str_lt (String a s) (String a t).

Definition str_le (s t : string) : Prop := s = t \/ str_lt s t.

(** ** Dictionaries *)

(** A Python dict: its items in iteration (insertion) order. *)
Definition dict (V : Type) : Type := list (string * V).

Definition keys {V} (d : dict V) : list string := map fst d.

(** [d.get(k)] / [d[k]] / [k in d]. *)
Fixpoint dict_get {V} (k : string) (d : dict V) : option V :=
  match d with
  | [] => None
  | (k', v) :: rest => if String.eqb k k' then Some v else dict_get k rest
  end.

Definition dict_mem {V} (k : string) (d : dict V) : bool :=
  match dict_get k d with Some _ => true | None => false end.

(** [d[k] = v]: an existing key keeps its position, a new key goes last. *)
Fixpoint dict_set {V} (k : string) (v : V) (d : dict V) : dict V :=
  match d with
  | [] => [(k, v)]
  | (k', v') :: rest =>
      if String.eqb k k' then (k, v) :: rest else (k', v') :: dict_set k v rest
  end.

(** [d.update(other)]: assigns the items of [other] in its iteration order. *)
Definition dict_update {V} (d other : dict V) : dict V :=
  fold_left (fun acc kv => dict_set (fst kv) (snd kv) acc) other d.

(** [OrderedDict(pairs)] / [dict(pairs)]. *)
Definition OrderedDict {V} (pairs : list (string * V)) : dict V :=
  dict_update [] pairs.

(** The representation invariant of a dict: no key occurs twice. *)
Definition dict_wf {V} (d : dict V) : Prop := NoDup (keys d).

(** ** [sorted] *)

(** Stable insertion of [x] into a list sorted by [leb]. *)
Fixpoint insert_by {A} (leb : A -> A -> bool) (x : A) (l : list A) : list A :=
  match l with
  | [] => [x]
  | y :: rest => if leb x y then x :: y :: rest else y :: insert_by leb x rest
  end.

Definition sort_by {A} (leb : A -> A -> bool) (l : list A) : list A :=
  fold_right (insert_by leb) [] l.

(** [sorted(l)] on a list of strings. *)
Definition sorted (l : list string) : list string := sort_by String.leb l.

(** [sorted(d.items())]: the items are (key, value) tuples; the keys of a
    dict are pairwise different, so the key alone decides every comparison. *)
Definition sorted_items {V} (items : list (string * V)) : list (string * V) :=
  sort_by (fun a b => String.leb (fst a) (fst b)) items.

(** ** The provider and the world *)

(** Exceptions.  [ClientError] is botocore's class for an error response of
    the service, carrying the service's error code; every other exception
    the run can meet (connection failures, [IOError], [ValueError],
    [AttributeError], ...) is an [OtherError] with the name of its class. *)
Inductive exn : Type :=
| ClientError (code : string)
| OtherError (class_name : string).

(** The answer of the provider to one request. *)
Inductive response (A : Type) : Type :=
| Returns (a : A)
| Raises (e : exn).
Arguments Returns {A} a.
Arguments Raises {A} e.

(** An entry of [describe_images()["Images"]]. *)
Record image : Type := { Name : string; ImageId : string }.

(** boto3's EC2 client: [describe_regions] through the endpoint of a region
    (the ["RegionName"] of each entry), and [describe_images] in a region
    for an owner and a name filter.  Creating the client is part of the
    request. *)
Record provider : Type := {
  describe_regions : string -> response (list string);
  describe_images : string -> string -> string -> response (list image)
}.

(** JSON values of the template that the program does not look into. *)
Unset Elimination Schemes.
Inductive json : Type :=
| JNull
| JBool (b : bool)
| JNum (n : N)
| JStr (s : string)
| JArr (l : list json)
| JObj (o : list (string * json)).
Set Elimination Schemes.

(** An entry of the template's ["Mappings"] object: a region to distro to
    image id mapping, or anything else.  The model covers the templates in
    which an ["AWSRegionOS2AMI"] entry that is a JSON object is such a
    mapping; an [OtherMapping] at that key stands for a value that is not
    an object. *)
Inductive mapping : Type :=
| AmiMapping (amis : dict (dict string))
| OtherMapping (j : json).

(** A top-level entry of the template: the ["Mappings"] object, or anything
    else.  A ["Mappings"] entry that is a JSON object is a
    [MappingsObject]; an [OtherEntry] at that key stands for a value that
    is not an object. *)
Inductive cfn_entry : Type :=
| MappingsObject (m : dict mapping)
| OtherEntry (j : json).

(** A file holds a JSON document whose top level is an object (as
    [json.load] with [object_pairs_hook=OrderedDict] reads it and
    [json.dump] writes it) or text that is not a JSON document, as the
    report is: it starts with [#]. *)
Inductive file : Type :=
| JsonFile (cfn_data : dict cfn_entry)
| TextFile (text : string).

(** What the program can change: the lines printed, the files, and the log
    of the paths opened for writing. *)
Record world : Type := {
  stdout : list string;
  fs : string -> option file;
  written : list string
}.

(** How a computation ends: with a value, by [sys.exit], or by an uncaught
    exception. *)
Inductive outcome (A : Type) : Type :=
| Ok (a : A)
| Exit (status : nat)
| Raise (e : exn).
Arguments Ok {A} a.
Arguments Exit {A} status.
Arguments Raise {A} e.

(** The exit status of the process. *)
Definition exit_status {A} (o : outcome A) : nat :=
  match o with
  | Ok _ => 0
  | Exit status => status
  | Raise _ => 1
  end.

(** ** The monad of the program *)

Definition M (A : Type) : Type := world -> world * outcome A.

Definition ret {A} (a : A) : M A := fun w => (w, Ok a).

Definition bind {A B} (m : M A) (k : A -> M B) : M B :=
  fun w =>
    match m w with
    | (w', Ok a) => k a w'
    | (w', Exit status) => (w', Exit status)
    | (w', Raise e) => (w', Raise e)
    end.

Notation "x <- m ;; k" := (bind m (fun x => k))
  (at level 61, m at next level, right associativity).
Notation "m ;;; k" := (bind m (fun _ => k))
  (at level 61, right associativity).

Definition raise {A} (e : exn) : M A := fun w => (w, Raise e).

Definition sys_exit {A} (status : nat) : M A := fun w => (w, Exit status).

(** [print(line)]. *)
Definition print (line : string) : M unit :=
  fun w => ({| stdout := (stdout w ++ [line])%list; fs := fs w;
               written := written w |}, Ok tt).

(** The value or the exception of a request. *)
Definition request {A} (r : response A) : M A :=
  match r with
  | Returns a => ret a
  | Raises e => raise e
  end.

(** [try: body except ClientError: handler]. *)
Definition try_except_ClientError {A} (body handler : M A) : M A :=
  fun w =>
    match body w with
    | (w', Raise (ClientError _)) => handler w'
    | r => r
    end.

(** [with open(path) as f: json.load(f, object_pairs_hook=OrderedDict)].
    The exceptions carry the class names of Python 2; Python 3 raises their
    subclasses [FileNotFoundError] and [JSONDecodeError]. *)
Definition json_load (path : string) : M (dict cfn_entry) :=
  fun w =>
    match fs w path with
    | None => (w, Raise (OtherError "IOError"))
    | Some (TextFile _) => (w, Raise (OtherError "ValueError"))
    | Some (JsonFile cfn_data) => (w, Ok cfn_data)
    end.

(** [with open(path, "w") as f:] followed by writing [content]. *)
Definition write_file (path : string) (content : file) : M unit :=
  fun w =>
    ({| stdout := stdout w;
        fs := fun p => if String.eqb p path then Some content else fs w p;
        written := (written w ++ [path])%list |}, Ok tt).

(** ** The program *)

(** The configured distro tags and the fragment of the image name that
    identifies each, in configured order. *)
Definition distros : dict string :=
  OrderedDict
    [ ("alinux", "amzn");
      ("centos6", "centos6");
      ("centos7", "centos7");
      ("ubuntu1404", "ubuntu-1404");
      ("ubuntu1604", "ubuntu-1604") ].

(** The loops over the images of a region and over [distros.items()],
    filling [amis]. *)
Definition match_distros (img : image) (amis : dict string) : dict string :=
  fold_left
    (fun amis kv =>
       if str_in (snd kv) (Name img) then dict_set (fst kv) (ImageId img) amis
       else amis)
    distros amis.

Definition match_images (images : list image) : dict string :=
  fold_left (fun amis img => match_distros img amis) images [].

(** ["aws-parallelcluster-%s*%s" % (version, date)]. *)
Definition name_filter (version date : string) : string :=
  "aws-parallelcluster-" ++ version ++ "*" ++ date.

Definition no_amis_warning (region_name : string) : string :=
  "Warning: there are no AMIs in the selected region (" ++ region_name ++ ")".

Section Program.

Variable ec2 : provider.

(** The body of the loop of [get_ami_list] for one region. *)
Definition get_ami_list_region (region_name date version owner : string)
    (amis_json : dict (dict string)) : M (dict (dict string)) :=
  try_except_ClientError
    (images <- request (describe_images ec2 region_name owner
                          (name_filter version date)) ;;
     let amis := match_images images in
     if Nat.eqb (List.length amis) 0 then
       print (no_amis_warning region_name) ;;;
       ret amis_json
     else
       ret (dict_set region_name (OrderedDict (sorted_items amis)) amis_json))
    (ret amis_json).

Fixpoint get_ami_list_from (regions : list string) (date version owner : string)
    (amis_json : dict (dict string)) : M (dict (dict string)) :=
  match regions with
  | [] => ret amis_json
  | region_name :: rest =>
      amis_json' <- get_ami_list_region region_name date version owner amis_json ;;
      get_ami_list_from rest date version owner amis_json'
  end.

Definition get_ami_list (regions : list string) (date version owner : string)
    : M (dict (dict string)) :=
  get_ami_list_from regions date version owner [].

(** The lines of the report for one distro tag. *)
Definition convert_distro (amis_json : dict (dict string)) (amis_txt : string)
    (key : string) : string :=
  fold_left
    (fun amis_txt item =>
       match dict_get key (snd item) with
       | Some ami => amis_txt ++ fst item ++ ": " ++ ami ++ nl
       | None => amis_txt
       end)
    amis_json (amis_txt ++ "# " ++ key ++ nl).

Definition convert_json_to_txt (amis_json : dict (dict string)) : string :=
  fold_left (fun amis_txt kv => convert_distro amis_json amis_txt (fst kv))
    distros "".

Definition get_all_aws_regions (region : string) : M (list string) :=
  regions <- request (describe_regions ec2 region) ;;
  ret (sorted regions).

Definition update_cfn_template (cfn_template_file : string)
    (amis_to_update : dict (dict string)) : M (dict (dict string)) :=
  cfn_data <- json_load cfn_template_file ;;
  mappings <- match dict_get "Mappings" cfn_data with
              | Some (MappingsObject m) => ret m
              | _ => raise (OtherError "AttributeError")
              end ;;
  current_amis <- match dict_get "AWSRegionOS2AMI" mappings with
                  | Some (AmiMapping amis) => ret amis
                  | _ => raise (OtherError "AttributeError")
                  end ;;
  let current_amis := dict_update current_amis amis_to_update in
  let ordered_amis := OrderedDict (sorted_items current_amis) in
  let mappings := dict_set "AWSRegionOS2AMI" (AmiMapping ordered_amis) mappings in
  let cfn_data := dict_set "Mappings" (MappingsObject mappings) cfn_data in
  write_file cfn_template_file (JsonFile cfn_data) ;;;
  ret ordered_amis.

Definition update_amis_txt (amis_txt_file : string) (amis : dict (dict string))
    : M unit :=
  let amis_txt := convert_json_to_txt amis in
  write_file amis_txt_file (TextFile amis_txt).

(** The parsed command line. *)
Record args : Type := {
  version : string;
  date : string;
  txt_file : string;
  partition : string;
  cloudformation_template : string
}.

Definition main (a : args) : M unit :=
  account <-
    (if String.eqb (partition a) "commercial" then
       ret ("247102896272", "us-east-1")
     else if String.eqb (partition a) "govcloud" then
       ret ("124026578433", "us-gov-west-1")
     else if String.eqb (partition a) "china" then
       ret ("036028979999", "cn-north-1")
     else
       print ("Unsupported partition " ++ partition a) ;;;
       sys_exit 1) ;;
  let account_id := fst account in
  let region := snd account in
  regions <- get_all_aws_regions region ;;
  amis_dict <- get_ami_list regions (date a) (version a) account_id ;;
  cfn_amis <- update_cfn_template (cloudformation_template a) amis_dict ;;
  update_amis_txt (txt_file a) cfn_amis.

End Program.

(** ** Vocabulary of the specification *)

(** The images a region returned; none when the request raised. *)
Definition returned_images (r : response (list image)) : list image :=
  match r with
  | Returns images => images
  | Raises _ => []
  end.

(** [id] is the id of the last image, in response order, whose name contains
    [fragment]. *)
Definition last_match (fragment : string) (images : list image) (id : string)
    : Prop :=
  exists before img after,
    images = (before ++ img :: after)%list /\
    is_substring fragment (Name img) /\
    ImageId img = id /\
    forall x, In x after -> ~ is_substring fragment (Name x).


(** [id] is recorded under ([region], [tag]) in a Region to DistroMap. *)
Definition recorded (amis_json : dict (dict string)) (region tag id : string)
    : Prop :=
  exists amis, dict_get region amis_json = Some amis /\ dict_get tag amis = Some id.

(** The entry the discoverer computes for a region: the sorted matches of
    the images returned, or none when nothing matched or the request
    raised. *)
Definition discovered (ec2 : provider) (date version owner region : string)
    : option (dict string) :=
  match describe_images ec2 region owner (name_filter version date) with
  | Returns images =>
      let amis := match_images images in
      if Nat.eqb (List.length amis) 0 then None
      else Some (OrderedDict (sorted_items amis))
  | Raises _ => None
  end.

(** The request of a region returned images and none of them matched. *)
Definition unmatched (ec2 : provider) (date version owner region : string)
    : bool :=
  match describe_images ec2 region owner (name_filter version date) with
  | Returns images => Nat.eqb (List.length (match_images images)) 0
  | Raises _ => false
  end.

(** The account id and the anchor region [main] selects for a partition. *)
Definition partition_account (partition : string) : option (string * string) :=
  if String.eqb partition "commercial" then
    Some ("247102896272", "us-east-1")
  else if String.eqb partition "govcloud" then
    Some ("124026578433", "us-gov-west-1")
  else if String.eqb partition "china" then
    Some ("036028979999", "cn-north-1")
  else None.

(** A JSON value is an object. *)
Definition is_object (j : json) : bool :=
  match j with
  | JObj _ => true
  | _ => false
  end.

(** The document has no mapping field that can be merged into: its
    ["Mappings"] entry is missing or is not an object ([None], a string, a
    number, a list: values without [.get]), or the ["AWSRegionOS2AMI"]
    entry of the [Mappings] object is missing or is not an object (values
    without [.update]). *)
Definition lacks_amis (cfn_data : dict cfn_entry) : bool :=
  match dict_get "Mappings" cfn_data with
  | None => true
  | Some (OtherEntry j) => negb (is_object j)
  | Some (MappingsObject mappings) =>
      match dict_get "AWSRegionOS2AMI" mappings with
      | None => true
      | Some (OtherMapping j) => negb (is_object j)
      | Some (AmiMapping _) => false
      end
  end.

(** The error codes with which EC2 rejects a request for authorization
    reasons. *)
Definition authorization_codes : list string :=
  ["AuthFailure"; "UnauthorizedOperation"; "OptInRequired"].

Definition is_authorization_rejection (e : exn) : bool :=
  match e with
  | ClientError code => existsb (String.eqb code) authorization_codes
  | OtherError _ => false
  end.

(** The mapping field [Mappings.AWSRegionOS2AMI] of the template stored at
    [path]. *)
Definition template_amis (w : world) (path : string)
    : option (dict (dict string)) :=
  match fs w path with
  | Some (JsonFile cfn_data) =>
      match dict_get "Mappings" cfn_data with
      | Some (MappingsObject mappings) =>
          match dict_get "AWSRegionOS2AMI" mappings with
          | Some (AmiMapping amis) => Some amis
          | _ => None
          end
      | _ => None
      end
  | _ => None
  end.

(** The distro mapping of [region] in the template stored at [path]. *)
Definition template_region (w : world) (path region : string)
    : option (dict string) :=
  match template_amis w path with
  | Some amis => dict_get region amis
  | None => None
  end.

(** The distro tags in configured order. *)
Definition configured_tags : list string :=
  ["alinux"; "centos6"; "centos7"; "ubuntu1404"; "ubuntu1604"].

(** The text of a list of lines, each ended by a newline. *)
Definition unlines (lines : list string) : string :=
  fold_right (fun line text => line ++ nl ++ text) "" lines.

(** A region has an entry for [tag]. *)
Definition has_tag (tag : string) (item : string * dict string) : bool :=
  dict_mem tag (snd item).

(** The line [<region>: <image id>] of a region for [tag]. *)
Definition region_line (tag : string) (item : string * dict string) : string :=
  fst item ++ ": " ++
  match dict_get tag (snd item) with Some ami => ami | None => "" end.

(** One line per region that has an entry for [tag], in the order of the
    map; a region without the tag gives no line. *)
Definition region_lines (tag : string) (amis_json : dict (dict string))
    : list string :=
  map (region_line tag) (filter (has_tag tag) amis_json).

(** The section of [tag]: its header, then its region lines. *)
Definition section_lines (amis_json : dict (dict string)) (tag : string)
    : list string :=
  ("# " ++ tag) :: region_lines tag amis_json.

(** The report: the sections of the given tags, one after the other. *)
Definition report_lines (tags : list string) (amis_json : dict (dict string))
    : list string :=
  flat_map (section_lines amis_json) tags.

(** ** A sample run

    A template with one region, and a provider of four regions: one with
    three images, one that rejects the request, one without images and one
    whose image name carries two fragments. *)

Definition sample_template : dict cfn_entry :=
  [ ("AWSTemplateFormatVersion", OtherEntry (JStr "2010-09-09"));
    ("Mappings",
     MappingsObject
       [ ("AWSRegionOS2AMI",
          AmiMapping
            [ ("us-east-1", [("alinux", "ami-000"); ("centos6", "ami-001")]);
              ("ap-south-1", [("alinux", "ami-002")]) ]) ]) ].

Definition sample_world : world :=
  {| stdout := [];
     fs := fun p =>
             if String.eqb p "aws-parallelcluster.cfn.json"
             then Some (JsonFile sample_template) else None;
     written := [] |}.

Definition sample_discovery : dict (dict string) :=
  [ ("us-east-1", [("alinux", "ami-111")]);
    ("eu-west-1", [("centos7", "ami-222")]) ].

Definition sample_images : list image :=
  [ {| Name := "aws-parallelcluster-2.0.0-ubuntu-1604-hvm-201811";
       ImageId := "ami-1" |};
    {| Name := "aws-parallelcluster-2.0.0-amzn-hvm-201811";
       ImageId := "ami-2" |};
    {| Name := "aws-parallelcluster-2.0.0-amzn-ebs-201811";
       ImageId := "ami-3" |} ].

Definition sample_provider : provider :=
  {| describe_regions := fun _ =>
       Returns ["us-east-1"; "cn-north-1"; "eu-west-1"; "ap-south-1"];
     describe_images := fun region _ _ =>
       if String.eqb region "us-east-1" then Returns sample_images
       else if String.eqb region "cn-north-1" then
         Raises (ClientError "AuthFailure")
       else if String.eqb region "eu-west-1" then Returns []
       else if String.eqb region "sa-east-1" then
         Raises (ClientError "RequestLimitExceeded")
       else if String.eqb region "me-south-1" then
         Raises (OtherError "EndpointConnectionError")
       else Returns [ {| Name := "aws-parallelcluster-2.0.0-centos7-201811";
                         ImageId := "ami-9" |} ] |}.

Definition sample_args (partition : string) : args :=
  {| version := "2.0.0";
     date := "201811";
     txt_file := "amis.txt";
     partition := partition;
     cloudformation_template := "aws-parallelcluster.cfn.json" |}.

Definition sample_path : string := "aws-parallelcluster.cfn.json".

(** The merge of [sample_discovery] into the sample template. *)
Definition sample_merge : world * outcome (dict (dict string)) :=
  update_cfn_template sample_path sample_discovery sample_world.

Definition sample_merged : dict (dict string) :=
  [ ("ap-south-1", [("alinux", "ami-002")]);
    ("eu-west-1", [("centos7", "ami-222")]);
    ("us-east-1", [("alinux", "ami-111")]) ].

(** The discovery over a list of regions of the sample provider. *)
Definition sample_get_ami_list (regions : list string)
    : world * outcome (dict (dict string)) :=
  get_ami_list sample_provider regions "201811" "2.0.0" "247102896272"
    sample_world.

Definition sample_images_of (region : string) : response (list image) :=
  describe_images sample_provider region "247102896272"
    (name_filter "2.0.0" "201811").

(** The whole program on the sample inputs, for a partition. *)
Definition sample_main (partition : string) : world * outcome unit :=
  main sample_provider (sample_args partition) sample_world.

(** The sample provider, listing a region that cannot be reached. *)
Definition sample_provider_unreachable : provider :=
  {| describe_regions := fun _ => Returns ["us-east-1"; "me-south-1"];
     describe_images := describe_images sample_provider |}.

(** The sample command line, with a template path that does not exist. *)
Definition sample_args_no_template : args :=
  {| version := "2.0.0";
     date := "201811";
     txt_file := "amis.txt";
     partition := "commercial";
     cloudformation_template := "missing.cfn.json" |}.

(** A region list that reaches an unreachable region after a rejected one
    and one without images. *)
Definition sample_regions : list string :=
  ["ap-south-1"; "cn-north-1"; "eu-west-1"; "me-south-1"; "us-east-1"].

(** A world whose template has a [Mappings] object without a mapping to
    merge into. *)
Definition sample_world_no_mapping : world :=
  {| stdout := [];
     fs := fun p =>
             if String.eqb p sample_path
             then Some (JsonFile
                          [ ("Mappings",
                             MappingsObject
                               [("AWSRegionOS2AMI", OtherMapping JNull)]) ])
             else None;
     written := [] |}.

(** * Properties *)

(** ** Substrings *)

Lemma prefix_iff (needle hay : string) :
  String.prefix needle hay = true <-> exists after, hay = needle ++ after.
Proof.
  revert hay; induction needle as [|c needle IH]; intros hay; simpl.
  - destruct hay; split; eauto.
  - destruct hay as [|c' hay]; simpl.
    + split; [discriminate | intros [after H]; discriminate].
    + destruct (ascii_dec c c') as [->|Hne].
      * rewrite IH. split; intros [after H]; exists after; congruence.
      * split; [discriminate | intros [after H]; congruence].
Qed.

Lemma str_in_iff (needle hay : string) :
  str_in needle hay = true <-> is_substring needle hay.
Proof.
  unfold is_substring.
  induction hay as [|c hay IH]; cbn [str_in]; rewrite orb_true_iff, prefix_iff.
  - split.
    + intros [[after H]|H]; [|discriminate]. exists "", after. exact H.
    + intros [before [after H]]. left.
      destruct before; [eauto | discriminate].
  - rewrite IH. split.
    + intros [[after H]|[before [after H]]].
      * exists "", after. exact H.
      * exists (String c before), after. simpl. congruence.
    + intros [[|c' before] [after H]]; simpl in H.
      * left. eauto.
      * right. exists before, after. congruence.
Qed.

(** ** The order on strings *)

Lemma str_lt_irrefl (s : string) : ~ str_lt s s.
Proof.
  induction s as [|c s IH]; intros H; inversion H; subst; [lia | auto].
Qed.

Lemma str_lt_trans (s t u : string) : str_lt s t -> str_lt t u -> str_lt s u.
Proof.
  intros Hst; revert u.
  induction Hst; intros u Htu; inversion Htu; subst;
    try (constructor; solve [auto | lia]).
Qed.

Lemma str_le_trans (s t u : string) : str_le s t -> str_le t u -> str_le s u.
Proof.
  unfold str_le.
  intros [->|Hst] [->|Htu]; auto. right. eapply str_lt_trans; eauto.
Qed.

Lemma compare_Lt_iff (s t : string) : String.compare s t = Lt <-> str_lt s t.
Proof.
  revert t; induction s as [|a s IH]; intros [|b t]; simpl.
  - split; [discriminate | intros H; inversion H].
  - split; [constructor | reflexivity].
  - split; [discriminate | intros H; inversion H].
  - unfold Ascii.compare.
    destruct (N.compare_spec (N_of_ascii a) (N_of_ascii b)) as [Heq|Hlt|Hgt].
    + assert (a = b) as ->.
      { rewrite <- (ascii_N_embedding a), <- (ascii_N_embedding b). congruence. }
      rewrite IH. split; [constructor; assumption|].
      intros H; inversion H; subst; [lia | assumption].
    + split; [constructor; assumption | reflexivity].
    + split; [discriminate|].
      intros H; inversion H; subst; [lia|lia].
Qed.

Lemma leb_iff (s t : string) : String.leb s t = true <-> str_le s t.
Proof.
  unfold String.leb, str_le.
  destruct (String.compare s t) eqn:Hc.
  - apply String.compare_eq_iff in Hc. tauto.
  - apply compare_Lt_iff in Hc. tauto.
  - split; [discriminate|].
    intros [->|H].
    + rewrite String.compare_antisym in Hc.
      destruct (String.compare t t) eqn:Hc'; try discriminate.
      apply compare_Lt_iff, str_lt_irrefl in Hc'. contradiction.
    + apply compare_Lt_iff in H. congruence.
Qed.

(** ** Dictionaries *)

Section DictFacts.

Context {V : Type}.
Implicit Types (d other : dict V) (k : string) (v : V).

Lemma dict_get_set_eq k v d : dict_get k (dict_set k v d) = Some v.
Proof.
  induction d as [|[k' v'] d IH]; simpl.
  - now rewrite String.eqb_refl.
  - destruct (String.eqb k k') eqn:E; simpl.
    + now rewrite String.eqb_refl.
    + now rewrite E.
Qed.

Lemma dict_get_set_neq k k' v d :
  k <> k' -> dict_get k' (dict_set k v d) = dict_get k' d.
Proof.
  intros Hne. induction d as [|[k0 v0] d IH]; simpl.
  - apply not_eq_sym, String.eqb_neq in Hne. now rewrite Hne.
  - destruct (String.eqb k k0) eqn:E; simpl.
    + apply String.eqb_eq in E; subst k0.
      apply not_eq_sym, String.eqb_neq in Hne. now rewrite Hne.
    + now rewrite IH.
Qed.

Lemma dict_get_None k d : dict_get k d = None <-> ~ In k (keys d).
Proof.
  induction d as [|[k' v'] d IH]; simpl.
  - tauto.
  - destruct (String.eqb_spec k k') as [->|Hne].
    + split; [discriminate | tauto].
    + rewrite IH. split; [intros H [E|E]; [congruence | tauto] | tauto].
Qed.

Lemma dict_get_In k v d : dict_get k d = Some v -> In (k, v) d.
Proof.
  induction d as [|[k' v'] d IH]; simpl; [discriminate|].
  destruct (String.eqb_spec k k') as [->|Hne].
  - intros [= ->]. now left.
  - auto.
Qed.

Lemma dict_In_get k v d : dict_wf d -> In (k, v) d -> dict_get k d = Some v.
Proof.
  unfold dict_wf.
  induction d as [|[k' v'] d IH]; simpl; [tauto|].
  intros Hnd [[= -> ->]|Hin].
  - now rewrite String.eqb_refl.
  - inversion Hnd; subst.
    destruct (String.eqb_spec k k') as [->|Hne]; [|auto].
    exfalso. apply H1. change k' with (fst (k', v)). now apply in_map.
Qed.

Lemma keys_dict_set k k' v d :
  In k' (keys (dict_set k v d)) <-> k' = k \/ In k' (keys d).
Proof.
  induction d as [|[k0 v0] d IH]; simpl.
  - intuition.
  - destruct (String.eqb_spec k k0) as [->|Hne]; simpl.
    + intuition.
    + rewrite IH. intuition.
Qed.

Lemma dict_set_wf k v d : dict_wf d -> dict_wf (dict_set k v d).
Proof.
  unfold dict_wf.
  induction d as [|[k0 v0] d IH]; simpl; intros Hnd.
  - constructor; [simpl; tauto | constructor].
  - inversion Hnd; subst.
    destruct (String.eqb_spec k k0) as [->|Hne]; simpl.
    + now constructor.
    + constructor; [|auto].
      fold (keys (dict_set k v d)). rewrite keys_dict_set.
      intros [E|E]; [congruence | contradiction].
Qed.

Lemma dict_set_new k v d :
  ~ In k (keys d) -> dict_set k v d = (d ++ [(k, v)])%list.
Proof.
  induction d as [|[k0 v0] d IH]; simpl; intros Hnin; [reflexivity|].
  destruct (String.eqb_spec k k0) as [->|Hne]; [tauto|].
  rewrite IH; tauto.
Qed.

Lemma dict_update_wf d other : dict_wf d -> dict_wf (dict_update d other).
Proof.
  unfold dict_update. revert d.
  induction other as [|[k v] other IH]; simpl; intros d Hwf; [assumption|].
  apply IH, dict_set_wf, Hwf.
Qed.

(** A key that [other] does not have keeps its value. *)
Lemma dict_update_get_old k d other :
  dict_get k other = None -> dict_get k (dict_update d other) = dict_get k d.
Proof.
  unfold dict_update. revert d.
  induction other as [|[k0 v0] other IH]; simpl; intros d Hnone; [reflexivity|].
  destruct (String.eqb_spec k k0) as [->|Hne]; [discriminate|].
  rewrite IH by assumption. apply dict_get_set_neq. congruence.
Qed.

(** A key of [other] takes the value [other] gives it. *)
Lemma dict_update_get_new k v d other :
  dict_wf other -> dict_get k other = Some v ->
  dict_get k (dict_update d other) = Some v.
Proof.
  unfold dict_update, dict_wf. revert d.
  induction other as [|[k0 v0] other IH]; simpl; intros d Hnd Hget;
    [discriminate|].
  inversion Hnd; subst.
  destruct (String.eqb_spec k k0) as [->|Hne].
  - injection Hget as ->.
    fold (dict_update (dict_set k0 v d) other).
    rewrite dict_update_get_old by now apply dict_get_None.
    apply dict_get_set_eq.
  - now apply IH.
Qed.

Lemma dict_update_app d other :
  dict_wf (d ++ other)%list -> dict_update d other = (d ++ other)%list.
Proof.
  unfold dict_update, dict_wf, keys. revert d.
  induction other as [|[k v] other IH]; simpl; intros d Hnd.
  - now rewrite app_nil_r.
  - rewrite dict_set_new.
    + rewrite IH; rewrite <- app_assoc; [reflexivity | exact Hnd].
    + rewrite map_app in Hnd. simpl in Hnd.
      apply NoDup_remove_2 in Hnd. rewrite in_app_iff in Hnd.
      unfold keys. tauto.
Qed.

(** [OrderedDict] of pairs with pairwise different keys keeps the pairs. *)
Lemma OrderedDict_id (pairs : list (string * V)) :
  dict_wf pairs -> OrderedDict pairs = pairs.
Proof. intros Hwf. unfold OrderedDict. now rewrite dict_update_app. Qed.

Lemma OrderedDict_wf (pairs : list (string * V)) : dict_wf (OrderedDict pairs).
Proof. apply dict_update_wf. constructor. Qed.

End DictFacts.

(** ** Sorting *)

Section SortFacts.

Context {A : Type} (leb : A -> A -> bool).

Lemma insert_by_perm (x : A) (l : list A) :
  Permutation (insert_by leb x l) (x :: l).
Proof.
  induction l as [|y l IH]; simpl; [reflexivity|].
  destruct (leb x y); [reflexivity|].
  rewrite IH. apply perm_swap.
Qed.

Lemma sort_by_perm (l : list A) : Permutation (sort_by leb l) l.
Proof.
  induction l as [|x l IH]; simpl; [reflexivity|].
  rewrite insert_by_perm. now constructor.
Qed.

Hypothesis leb_total : forall a b, leb a b = true \/ leb b a = true.
Hypothesis leb_trans :
  forall a b c, leb a b = true -> leb b c = true -> leb a c = true.

Lemma insert_by_sorted (x : A) (l : list A) :
  StronglySorted (fun a b => leb a b = true) l ->
  StronglySorted (fun a b => leb a b = true) (insert_by leb x l).
Proof.
  induction l as [|y l IH]; simpl; intros Hs.
  - repeat constructor.
  - inversion Hs as [|? ? Hl Hy]; subst.
    destruct (leb x y) eqn:E.
    + constructor; [assumption|].
      constructor; [assumption|].
      eapply Forall_impl; [|exact Hy]. intros z Hz. eapply leb_trans; eauto.
    + constructor; [auto|].
      eapply Permutation_Forall; [symmetry; apply insert_by_perm|].
      constructor; [|assumption].
      destruct (leb_total x y); congruence.
Qed.

Lemma sort_by_sorted (l : list A) :
  StronglySorted (fun a b => leb a b = true) (sort_by leb l).
Proof.
  induction l as [|x l IH]; simpl; [constructor|].
  now apply insert_by_sorted.
Qed.

End SortFacts.

Lemma leb_str_trans (a b c : string) :
  String.leb a b = true -> String.leb b c = true -> String.leb a c = true.
Proof. rewrite !leb_iff. apply str_le_trans. Qed.

Lemma StronglySorted_weaken {A} (R R' : A -> A -> Prop) (l : list A) :
  (forall a b, R a b -> R' a b) -> StronglySorted R l -> StronglySorted R' l.
Proof.
  intros HR. induction 1 as [|a l Hs IH Hall]; constructor; [assumption|].
  eapply Forall_impl; [|exact Hall]. auto.
Qed.

Lemma StronglySorted_map {A B} (f : A -> B) (R : B -> B -> Prop) (l : list A) :
  StronglySorted (fun a b => R (f a) (f b)) l -> StronglySorted R (map f l).
Proof.
  induction 1 as [|a l Hs IH Hall]; simpl; constructor; [assumption|].
  now apply Forall_map.
Qed.

(** A sorted list without repetition is strictly increasing. *)
Lemma sorted_strict (l : list string) :
  StronglySorted str_le l -> NoDup l -> StronglySorted str_lt l.
Proof.
  induction 1 as [|a l Hs IH Hall]; intros Hnd; constructor;
    inversion Hnd; subst; [auto|].
  rewrite Forall_forall in *. intros b Hb.
  destruct (Hall b Hb) as [->|Hlt]; [contradiction | assumption].
Qed.

(** [sorted] returns its argument in lexicographic order. *)
Lemma sorted_sorted (l : list string) : StronglySorted str_le (sorted l).
Proof.
  eapply StronglySorted_weaken; [|apply (sort_by_sorted String.leb)].
  - intros a b. apply leb_iff.
  - apply String.leb_total.
  - apply leb_str_trans.
Qed.

Lemma sorted_perm (l : list string) : Permutation (sorted l) l.
Proof. apply sort_by_perm. Qed.

Section SortedItems.

Context {V : Type}.
Implicit Types (items : list (string * V)) (d : dict V).

Lemma sorted_items_perm items : Permutation (sorted_items items) items.
Proof. apply sort_by_perm. Qed.

Lemma sorted_items_keys_sorted items :
  StronglySorted str_le (keys (sorted_items items)).
Proof.
  apply StronglySorted_map.
  eapply StronglySorted_weaken;
    [|apply (sort_by_sorted (fun a b : string * V => String.leb (fst a) (fst b)))].
  - intros a b. apply leb_iff.
  - intros a b. apply String.leb_total.
  - intros a b c. apply leb_str_trans.
Qed.

Lemma sorted_items_wf items : dict_wf items -> dict_wf (sorted_items items).
Proof.
  unfold dict_wf, keys. intros Hnd.
  eapply Permutation_NoDup; [|exact Hnd].
  symmetry. apply Permutation_map, sorted_items_perm.
Qed.

(** Sorting is stable, so a key finds the same value before and after. *)
Lemma dict_get_insert k (x : string * V) items :
  dict_get k (insert_by (fun a b => String.leb (fst a) (fst b)) x items)
  = dict_get k (x :: items).
Proof.
  induction items as [|y items IH]; [reflexivity|].
  cbn [insert_by].
  destruct (String.leb (fst x) (fst y)) eqn:E; [reflexivity|].
  destruct x as [kx vx], y as [ky vy]. cbn [dict_get] in *. rewrite IH.
  destruct (String.eqb_spec k kx) as [->|Hx]; [|reflexivity].
  destruct (String.eqb_spec kx ky) as [->|Hy]; [|reflexivity].
  simpl in E. assert (String.leb ky ky = true) by (apply leb_iff; now left).
  congruence.
Qed.

Lemma dict_get_sorted_items k items :
  dict_get k (sorted_items items) = dict_get k items.
Proof.
  induction items as [|[kx vx] items IH]; [reflexivity|].
  unfold sorted_items in *. cbn [sort_by fold_right].
  fold (sort_by (fun a b : string * V => String.leb (fst a) (fst b)) items).
  rewrite dict_get_insert. cbn [dict_get]. now rewrite IH.
Qed.

End SortedItems.

(** ** [OrderedDict(sorted(d.items()))] *)

Lemma StronglySorted_snoc {A} (R : A -> A -> Prop) (l : list A) (a : A) :
  StronglySorted R l -> Forall (fun x => R x a) l ->
  StronglySorted R (l ++ [a])%list.
Proof.
  induction 1 as [|b l Hs IH Hall]; simpl; intros Hfa.
  - repeat constructor.
  - inversion Hfa; subst. constructor; [auto|].
    apply Forall_app. split; [assumption | now constructor].
Qed.

Section OrderedFacts.

Context {V : Type}.
Implicit Types (items : list (string * V)) (d : dict V).

Lemma keys_dict_set_old k (v : V) d :
  In k (keys d) -> keys (dict_set k v d) = keys d.
Proof.
  induction d as [|[k0 v0] d IH]; simpl; [tauto|].
  destruct (String.eqb_spec k k0) as [->|Hne]; simpl; [reflexivity|].
  intros [E|Hin]; [congruence|]. now rewrite IH.
Qed.

(** Assigning items whose keys are in order after a strictly ordered dict
    keeps the keys strictly ordered. *)
Lemma dict_update_sorted d items :
  StronglySorted str_lt (keys d) ->
  StronglySorted str_le (keys items) ->
  (forall x y, In x (keys d) -> In y (keys items) -> str_le x y) ->
  StronglySorted str_lt (keys (dict_update d items)).
Proof.
  unfold dict_update. revert d.
  induction items as [|[k v] items IH]; simpl; intros d Hd Hi Hle; [assumption|].
  inversion Hi as [|? ? Hi' Hk]; subst.
  destruct (in_dec string_dec k (keys d)) as [Hin|Hnin]; apply IH; trivial.
  - now rewrite keys_dict_set_old.
  - rewrite keys_dict_set_old by assumption. auto.
  - rewrite dict_set_new by assumption. unfold keys. rewrite map_app.
    apply StronglySorted_snoc; [assumption|].
    apply Forall_forall. intros x Hx.
    destruct (Hle x k Hx (or_introl eq_refl)) as [->|Hlt]; [contradiction|].
    assumption.
  - rewrite dict_set_new by assumption. unfold keys. rewrite map_app.
    intros x y Hx Hy. apply in_app_or in Hx. destruct Hx as [Hx|[<-|[]]].
    + auto.
    + rewrite Forall_forall in Hk. auto.
Qed.

(** The keys of a dict rebuilt from its sorted items are strictly
    increasing. *)
Lemma sorted_dict_keys items :
  StronglySorted str_lt (keys (OrderedDict (sorted_items items))).
Proof.
  apply dict_update_sorted.
  - constructor.
  - apply sorted_items_keys_sorted.
  - intros x y [].
Qed.

(** Rebuilding a dict from its sorted items changes no value. *)
Lemma sorted_dict_get k d :
  dict_wf d -> dict_get k (OrderedDict (sorted_items d)) = dict_get k d.
Proof.
  intros Hwf. rewrite OrderedDict_id by now apply sorted_items_wf.
  apply dict_get_sorted_items.
Qed.

Lemma sorted_dict_perm d :
  dict_wf d -> Permutation (OrderedDict (sorted_items d)) d.
Proof.
  intros Hwf. rewrite OrderedDict_id by now apply sorted_items_wf.
  apply sorted_items_perm.
Qed.

End OrderedFacts.

(** ** The template merger *)

Lemma update_cfn_template_ok path amis_to_update w current_amis :
  template_amis w path = Some current_amis ->
  exists w',
    update_cfn_template path amis_to_update w
    = (w', Ok (OrderedDict (sorted_items (dict_update current_amis amis_to_update)))).
Proof.
  unfold template_amis, update_cfn_template, bind, json_load, write_file, ret.
  destruct (fs w path) as [[cfn_data|]|]; try discriminate.
  destruct (dict_get "Mappings" cfn_data) as [[m|]|]; try discriminate.
  destruct (dict_get "AWSRegionOS2AMI" m) as [[amis|]|]; try discriminate.
  intros [= ->]. eexists. reflexivity.
Qed.

Lemma update_cfn_template_inv path amis_to_update w w' ordered_amis :
  update_cfn_template path amis_to_update w = (w', Ok ordered_amis) ->
  exists current_amis,
    template_amis w path = Some current_amis /\
    ordered_amis = OrderedDict (sorted_items (dict_update current_amis amis_to_update)) /\
    template_amis w' path = Some ordered_amis /\
    stdout w' = stdout w /\
    written w' = (written w ++ [path])%list.
Proof.
  unfold template_amis, update_cfn_template, bind, json_load, write_file, ret,
    raise.
  destruct (fs w path) as [[cfn_data|]|]; try discriminate.
  destruct (dict_get "Mappings" cfn_data) as [[m|]|]; try discriminate.
  destruct (dict_get "AWSRegionOS2AMI" m) as [[amis|]|]; try discriminate.
  intros [= <- <-]. exists amis. cbn [fs stdout written].
  rewrite String.eqb_refl, !dict_get_set_eq. auto.
Qed.

(** The merged mapping read at one region. *)
Lemma merged_get region (current_amis amis_to_update : dict (dict string)) :
  dict_wf current_amis ->
  dict_get region
    (OrderedDict (sorted_items (dict_update current_amis amis_to_update)))
  = dict_get region (dict_update current_amis amis_to_update).
Proof. intros Hwf. apply sorted_dict_get. now apply dict_update_wf. Qed.

Ltac solve_sorted :=
  simpl;
  repeat first
    [ apply SSorted_nil | apply SSorted_cons | apply Forall_nil
    | apply Forall_cons | apply compare_Lt_iff; reflexivity ].

Ltac solve_wf :=
  unfold dict_wf; simpl;
  repeat (constructor; [simpl; intuition discriminate|]); constructor.

(** C3. Merging leaves the distro mapping of every region of the template
    that is not a key of the new discovery set as it was, in the mapping
    returned and in the template written.  The mapping of the template is a
    dict as loaded, with pairwise different region keys. *)
Theorem merge_keeps_unrelated_regions
    path amis_to_update w w' ordered_amis current_amis region :
  update_cfn_template path amis_to_update w = (w', Ok ordered_amis) ->
  template_amis w path = Some current_amis ->
  dict_wf current_amis ->
  dict_get region amis_to_update = None ->
  dict_get region ordered_amis = dict_get region current_amis /\
  template_region w' path region = template_region w path region.
Proof.
  intros Hrun Hcur Hwf Hnew.
  apply update_cfn_template_inv in Hrun.
  destruct Hrun as (cur & Hcur' & -> & Hfile & _).
  assert (cur = current_amis) as -> by congruence.
  unfold template_region. rewrite Hfile, Hcur.
  rewrite merged_get by assumption.
  rewrite dict_update_get_old by assumption. auto.
Qed.

Lemma merge_keeps_unrelated_regions_witness :
  snd sample_merge = Ok sample_merged /\
  template_region (fst sample_merge) sample_path "ap-south-1"
  = template_region sample_world sample_path "ap-south-1".
Proof.
  split; [reflexivity|].
  refine (proj2 (merge_keeps_unrelated_regions
                   sample_path sample_discovery sample_world
                   _ _ _ "ap-south-1" eq_refl eq_refl _ eq_refl)).
  solve_wf.
Defined.

(** C4. For a region of the new discovery set, the merged entry is exactly
    the inner mapping of the new discovery, in the mapping returned and in
    the template written: a distro tag recorded for the region after the
    merge is a tag of the new discovery, whatever the old entry held. *)
Theorem merge_replaces_region
    path amis_to_update w w' ordered_amis current_amis region new_amis :
  update_cfn_template path amis_to_update w = (w', Ok ordered_amis) ->
  template_amis w path = Some current_amis ->
  dict_wf current_amis ->
  dict_wf amis_to_update ->
  dict_get region amis_to_update = Some new_amis ->
  dict_get region ordered_amis = Some new_amis /\
  template_region w' path region = Some new_amis /\
  forall tag id,
    recorded ordered_amis region tag id -> dict_get tag new_amis = Some id.
Proof.
  intros Hrun Hcur Hwf Hwf' Hnew.
  apply update_cfn_template_inv in Hrun.
  destruct Hrun as (cur & Hcur' & -> & Hfile & _).
  assert (cur = current_amis) as -> by congruence.
  assert (Hget : dict_get region
            (OrderedDict (sorted_items (dict_update current_amis amis_to_update)))
          = Some new_amis).
  { rewrite merged_get by assumption.
    now apply dict_update_get_new. }
  unfold template_region. rewrite Hfile.
  repeat split; try assumption.
  intros tag id (amis & Hregion & Htag). congruence.
Qed.

Lemma merge_replaces_region_witness :
  template_region sample_world sample_path "us-east-1"
  = Some [("alinux", "ami-000"); ("centos6", "ami-001")] /\
  template_region (fst sample_merge) sample_path "us-east-1"
  = Some [("alinux", "ami-111")].
Proof.
  split; [reflexivity|].
  refine (proj1 (proj2 (merge_replaces_region
                   sample_path sample_discovery sample_world
                   _ _ _ "us-east-1" _ eq_refl eq_refl _ _ eq_refl)));
    solve_wf.
Defined.

(** C5. After a merge the region keys of the mapping returned are in
    strictly increasing lexicographic order, and that mapping is the one
    written into the [Mappings.AWSRegionOS2AMI] field of the template. *)
Theorem merged_regions_sorted path amis_to_update w w' ordered_amis :
  update_cfn_template path amis_to_update w = (w', Ok ordered_amis) ->
  StronglySorted str_lt (keys ordered_amis) /\
  template_amis w' path = Some ordered_amis.
Proof.
  intros Hrun.
  apply update_cfn_template_inv in Hrun.
  destruct Hrun as (cur & _ & -> & Hfile & _).
  split; [apply sorted_dict_keys | exact Hfile].
Qed.

Lemma merged_regions_sorted_witness :
  StronglySorted str_lt ["ap-south-1"; "eu-west-1"; "us-east-1"] /\
  template_amis (fst sample_merge) sample_path = Some sample_merged.
Proof.
  exact (merged_regions_sorted sample_path sample_discovery sample_world
           _ _ eq_refl).
Defined.

(** ** The text report *)

Lemma append_assoc (a b c : string) : (a ++ b) ++ c = a ++ b ++ c.
Proof. induction a as [|x a IH]; simpl; [reflexivity | now rewrite IH]. Qed.

Lemma append_nil_r (a : string) : a ++ "" = a.
Proof. induction a as [|x a IH]; simpl; [reflexivity | now rewrite IH]. Qed.

Lemma unlines_app (l1 l2 : list string) :
  unlines (l1 ++ l2)%list = unlines l1 ++ unlines l2.
Proof.
  induction l1 as [|x l1 IH]; simpl; [reflexivity|].
  now rewrite IH, !append_assoc.
Qed.

Lemma convert_regions key (amis_json : dict (dict string)) (amis_txt : string) :
  fold_left
    (fun amis_txt item =>
       match dict_get key (snd item) with
       | Some ami => amis_txt ++ fst item ++ ": " ++ ami ++ nl
       | None => amis_txt
       end)
    amis_json amis_txt
  = amis_txt ++ unlines (region_lines key amis_json).
Proof.
  revert amis_txt.
  induction amis_json as [|[region amis] amis_json IH]; intros amis_txt.
  - simpl. now rewrite append_nil_r.
  - cbn [fold_left]. rewrite IH.
    unfold region_lines, has_tag, dict_mem, region_line. cbn [filter snd fst].
    destruct (dict_get key amis) as [ami|] eqn:E; [|reflexivity].
    cbn [map unlines fold_right fst snd]. rewrite E.
    now rewrite !append_assoc.
Qed.

Lemma convert_distro_lines amis_json amis_txt key :
  convert_distro amis_json amis_txt key
  = amis_txt ++ unlines (section_lines amis_json key).
Proof.
  unfold convert_distro. rewrite convert_regions.
  unfold section_lines. cbn [unlines fold_right].
  now rewrite !append_assoc.
Qed.

Lemma convert_sections (ds : dict string) amis_json amis_txt :
  fold_left (fun amis_txt kv => convert_distro amis_json amis_txt (fst kv))
    ds amis_txt
  = amis_txt ++ unlines (report_lines (keys ds) amis_json).
Proof.
  revert amis_txt. induction ds as [|[key value] ds IH]; intros amis_txt.
  - simpl. now rewrite append_nil_r.
  - cbn [fold_left fst]. rewrite IH, convert_distro_lines.
    unfold report_lines. cbn [keys map flat_map fst].
    now rewrite unlines_app, append_assoc.
Qed.

(** The report is the text of the sections of the configured tags. *)
Lemma convert_json_to_txt_lines amis_json :
  convert_json_to_txt amis_json
  = unlines (report_lines configured_tags amis_json).
Proof. unfold convert_json_to_txt. now rewrite convert_sections. Qed.

Lemma region_lines_none tag (amis_json : dict (dict string)) :
  (forall item, In item amis_json -> dict_get tag (snd item) = None) ->
  region_lines tag amis_json = [].
Proof.
  unfold region_lines, has_tag, dict_mem.
  induction amis_json as [|item amis_json IH]; intros Hnone; [reflexivity|].
  cbn [filter]. rewrite (Hnone item (or_introl eq_refl)).
  apply IH. intros item' Hin. apply Hnone. now right.
Qed.

(** The regions listed in a section keep the order of the map: sorted when
    the map is. *)
Lemma section_regions_sorted tag (amis_json : dict (dict string)) :
  StronglySorted str_lt (keys amis_json) ->
  StronglySorted str_lt (keys (filter (has_tag tag) amis_json)).
Proof.
  unfold keys.
  induction amis_json as [|item amis_json IH]; simpl; intros Hs; [constructor|].
  inversion Hs as [|? ? Hs' Hall]; subst.
  destruct (has_tag tag item); [|auto].
  simpl. constructor; [auto|].
  rewrite Forall_forall in *. intros x Hx. apply Hall.
  rewrite in_map_iff in *. destruct Hx as (y & <- & Hy).
  apply filter_In in Hy. exists y. tauto.
Qed.

(** C6. The report is made of one section per distro tag, in the order
    alinux, centos6, centos7, ubuntu1404, ubuntu1604; a section is the line
    [# <tag>] followed by one line [<region>: <image id>] for each region
    of the map that has the tag, in the order of the map, and by nothing for
    a region that lacks it. *)
Theorem report_sections_in_configured_order (amis_json : dict (dict string)) :
  convert_json_to_txt amis_json
  = unlines
      (section_lines amis_json "alinux" ++
       section_lines amis_json "centos6" ++
       section_lines amis_json "centos7" ++
       section_lines amis_json "ubuntu1404" ++
       section_lines amis_json "ubuntu1604")%list
  /\ (forall tag,
        section_lines amis_json tag
        = ("# " ++ tag)
            :: map (region_line tag) (filter (has_tag tag) amis_json))
  /\ (StronglySorted str_lt (keys amis_json) ->
      forall tag,
        StronglySorted str_lt (keys (filter (has_tag tag) amis_json))).
Proof.
  split; [|split; [reflexivity|]].
  - rewrite convert_json_to_txt_lines.
    unfold report_lines, configured_tags. cbn [flat_map].
    now rewrite app_nil_r.
  - intros Hsorted tag. now apply section_regions_sorted.
Qed.

Lemma report_sections_in_configured_order_witness :
  convert_json_to_txt sample_merged
  = unlines [ "# alinux"; "ap-south-1: ami-002"; "us-east-1: ami-111";
              "# centos6";
              "# centos7"; "eu-west-1: ami-222";
              "# ubuntu1404";
              "# ubuntu1604" ] /\
  StronglySorted str_lt ["ap-south-1"; "us-east-1"].
Proof.
  destruct (report_sections_in_configured_order sample_merged)
    as (Htext & _ & Hsorted).
  split; [exact Htext|].
  refine (Hsorted _ "alinux"). solve_sorted.
Defined.

(** C10. The report has a header line [# <tag>] for every configured distro
    tag: the text is the sections of the tags configured before it, the
    header, the lines of its regions, and the sections of the tags
    configured after it; when no region has an entry for the tag there are
    no region lines, so the section is its header alone. *)
Theorem report_has_every_header (amis_json : dict (dict string)) (tag : string) :
  In tag (keys distros) ->
  exists tags_before tags_after lines,
    keys distros = (tags_before ++ tag :: tags_after)%list /\
    convert_json_to_txt amis_json
    = unlines (report_lines tags_before amis_json) ++
      ("# " ++ tag ++ nl) ++
      unlines lines ++
      unlines (report_lines tags_after amis_json) /\
    ((forall item, In item amis_json -> dict_get tag (snd item) = None) ->
     lines = []).
Proof.
  intros Hin.
  destruct (in_split _ _ Hin) as (tags_before & tags_after & Hsplit).
  exists tags_before, tags_after, (region_lines tag amis_json).
  split; [exact Hsplit|]. split.
  - rewrite convert_json_to_txt_lines.
    change configured_tags with (keys distros). rewrite Hsplit.
    unfold report_lines. rewrite flat_map_app. cbn [flat_map].
    rewrite !unlines_app. unfold section_lines. cbn [unlines fold_right].
    now rewrite !append_assoc.
  - apply region_lines_none.
Qed.

Lemma report_has_every_header_witness :
  In "ubuntu1404" (keys distros) /\
  exists tags_before tags_after lines,
    keys distros = (tags_before ++ "ubuntu1404" :: tags_after)%list /\
    convert_json_to_txt sample_merged
    = unlines (report_lines tags_before sample_merged) ++
      ("# " ++ "ubuntu1404" ++ nl) ++
      unlines lines ++
      unlines (report_lines tags_after sample_merged) /\
    ((forall item,
        In item sample_merged -> dict_get "ubuntu1404" (snd item) = None) ->
     lines = []).
Proof.
  assert (Hin : In "ubuntu1404" (keys distros)) by (simpl; tauto).
  split; [exact Hin|].
  exact (report_has_every_header sample_merged "ubuntu1404" Hin).
Defined.

(** ** The command line driver *)

(** C8. With a [--partition] other than commercial, china and govcloud the
    program prints the error line and exits with status 1; no file is
    opened for writing and the files are as they were. *)
Theorem unsupported_partition_exits (ec2 : provider) (a : args) (w : world) :
  partition a <> "commercial" ->
  partition a <> "china" ->
  partition a <> "govcloud" ->
  exists w',
    main ec2 a w = (w', Exit 1) /\
    exit_status (snd (main ec2 a w)) = 1 /\
    stdout w'
    = (stdout w ++ [("Unsupported partition " ++ partition a)%string])%list /\
    written w' = written w /\
    fs w' = fs w.
Proof.
  intros Hcommercial Hchina Hgovcloud.
  apply String.eqb_neq in Hcommercial, Hchina, Hgovcloud.
  unfold main, bind. rewrite Hcommercial, Hgovcloud, Hchina.
  unfold print, sys_exit. cbn.
  eexists. repeat split.
Qed.

Lemma unsupported_partition_exits_witness :
  exists w',
    main sample_provider (sample_args "unsupported") sample_world = (w', Exit 1) /\
    exit_status (snd (main sample_provider (sample_args "unsupported") sample_world))
    = 1 /\
    stdout w' = ["Unsupported partition unsupported"] /\
    written w' = [] /\
    fs w' = fs sample_world.
Proof.
  apply (unsupported_partition_exits sample_provider (sample_args "unsupported")
           sample_world); discriminate.
Defined.

(** ** Matching image names *)

Lemma distros_wf : dict_wf distros.
Proof. apply OrderedDict_wf. Qed.

(** One pass over a list of distros, for a tag it does not list. *)
Lemma match_pass_other (ds : dict string) img tag amis :
  ~ In tag (keys ds) ->
  dict_get tag
    (fold_left
       (fun amis kv =>
          if str_in (snd kv) (Name img)
          then dict_set (fst kv) (ImageId img) amis else amis)
       ds amis)
  = dict_get tag amis.
Proof.
  revert amis. induction ds as [|[k v] ds IH]; simpl; intros amis Hnin;
    [reflexivity|].
  rewrite IH by tauto.
  destruct (str_in v (Name img)); [|reflexivity].
  apply dict_get_set_neq. tauto.
Qed.

(** One pass over a list of distros, for a tag it lists. *)
Lemma match_pass_tag (ds : dict string) img tag fragment amis :
  dict_wf ds -> In (tag, fragment) ds ->
  dict_get tag
    (fold_left
       (fun amis kv =>
          if str_in (snd kv) (Name img)
          then dict_set (fst kv) (ImageId img) amis else amis)
       ds amis)
  = if str_in fragment (Name img) then Some (ImageId img)
    else dict_get tag amis.
Proof.
  unfold dict_wf. revert amis.
  induction ds as [|[k v] ds IH]; simpl; intros amis Hnd Hin; [tauto|].
  inversion Hnd as [|? ? Hk Hnd']; subst.
  destruct Hin as [[= -> ->]|Hin].
  - rewrite match_pass_other by assumption.
    destruct (str_in fragment (Name img)); [|reflexivity].
    apply dict_get_set_eq.
  - rewrite IH by assumption.
    destruct (str_in fragment (Name img)); [reflexivity|].
    destruct (str_in v (Name img)); [|reflexivity].
    apply dict_get_set_neq. intros ->. apply Hk.
    change tag with (fst (tag, fragment)). now apply in_map.
Qed.

Lemma match_distros_get img tag fragment amis :
  In (tag, fragment) distros ->
  dict_get tag (match_distros img amis)
  = if str_in fragment (Name img) then Some (ImageId img)
    else dict_get tag amis.
Proof. apply match_pass_tag, distros_wf. Qed.

Lemma match_distros_wf img amis : dict_wf amis -> dict_wf (match_distros img amis).
Proof.
  unfold match_distros. generalize distros as ds. intros ds. revert amis.
  induction ds as [|[k v] ds IH]; simpl; intros amis Hwf; [assumption|].
  apply IH. destruct (str_in v (Name img)); [now apply dict_set_wf | assumption].
Qed.


Lemma match_images_snoc images img :
  match_images (images ++ [img])%list = match_distros img (match_images images).
Proof. unfold match_images. now rewrite fold_left_app. Qed.

Lemma match_images_wf images : dict_wf (match_images images).
Proof.
  induction images as [|img images IH] using rev_ind.
  - constructor.
  - rewrite match_images_snoc. now apply match_distros_wf.
Qed.

(** The id kept for a tag is that of the last image whose name contains the
    fragment of the tag. *)
Lemma match_images_get images tag fragment id :
  In (tag, fragment) distros ->
  dict_get tag (match_images images) = Some id <-> last_match fragment images id.
Proof.
  intros Hin. revert id.
  induction images as [|img images IH] using rev_ind; intros id.
  - split; [discriminate|].
    intros (before & x & after & H & _). destruct before; discriminate.
  - rewrite match_images_snoc, (match_distros_get _ _ _ _ Hin).
    destruct (str_in fragment (Name img)) eqn:E.
    + split.
      * intros [= <-]. exists images, img, []. repeat split.
        -- now apply str_in_iff.
        -- intros x [].
      * intros (before & x & after & Heq & Hx & Hid & Hafter).
        destruct after as [|y after _] using rev_ind.
        -- apply app_inj_tail in Heq. destruct Heq as [_ <-]. congruence.
        -- exfalso. apply (Hafter img).
           ++ rewrite app_comm_cons, app_assoc in Heq.
              apply app_inj_tail in Heq. destruct Heq as [_ <-].
              apply in_or_app. right. now left.
           ++ now apply str_in_iff.
    + rewrite IH. split.
      * intros (before & x & after & Heq & Hx & Hid & Hafter).
        exists before, x, (after ++ [img])%list. repeat split; trivial.
        -- rewrite Heq, <- app_assoc. reflexivity.
        -- intros y Hy. apply in_app_or in Hy. destruct Hy as [Hy|[<-|[]]].
           ++ auto.
           ++ rewrite <- str_in_iff. congruence.
      * intros (before & x & after & Heq & Hx & Hid & Hafter).
        destruct after as [|y after _] using rev_ind.
        -- apply app_inj_tail in Heq. destruct Heq as [_ <-].
           apply str_in_iff in Hx. congruence.
        -- rewrite app_comm_cons, app_assoc in Heq.
           apply app_inj_tail in Heq. destruct Heq as [-> <-].
           exists before, x, after. repeat split; trivial.
           intros z Hz. apply Hafter, in_or_app. now left.
Qed.

(** A matching image leaves an id under the tag. *)
Lemma match_images_some images img tag fragment :
  In (tag, fragment) distros -> In img images ->
  is_substring fragment (Name img) ->
  dict_get tag (match_images images) <> None.
Proof.
  intros Htag Himg Hsub. revert Himg.
  induction images as [|x images IH] using rev_ind; [intros []|].
  intros Himg. rewrite match_images_snoc, (match_distros_get _ _ _ _ Htag).
  destruct (str_in fragment (Name x)) eqn:E; [discriminate|].
  apply in_app_or in Himg. destruct Himg as [Himg|[->|[]]]; [auto|].
  apply str_in_iff in Hsub. congruence.
Qed.


(** ** The image discoverer *)

Section Discovery.

Variable ec2 : provider.
Variables date version owner : string.

Let images_of (region : string) : response (list image) :=
  describe_images ec2 region owner (name_filter version date).

(** What the loop body does with one region. *)
Lemma get_ami_list_region_eq region amis_json w :
  get_ami_list_region ec2 region date version owner amis_json w =
  match images_of region with
  | Returns images =>
      if Nat.eqb (List.length (match_images images)) 0
      then ({| stdout := (stdout w ++ [no_amis_warning region])%list;
               fs := fs w; written := written w |}, Ok amis_json)
      else (w, Ok (dict_set region
                     (OrderedDict (sorted_items (match_images images)))
                     amis_json))
  | Raises (ClientError _) => (w, Ok amis_json)
  | Raises (OtherError class_name) => (w, Raise (OtherError class_name))
  end.
Proof.
  unfold get_ami_list_region, try_except_ClientError, bind, images_of.
  destruct (describe_images ec2 region owner (name_filter version date))
    as [images|[code|class_name]]; cbn; try reflexivity.
  destruct (Nat.eqb (List.length (match_images images)) 0); reflexivity.
Qed.

(** A region whose request raised [ClientError] leaves no trace. *)
Lemma get_ami_list_from_skip before region after code amis_json w :
  images_of region = Raises (ClientError code) ->
  get_ami_list_from ec2 (before ++ region :: after) date version owner amis_json w
  = get_ami_list_from ec2 (before ++ after) date version owner amis_json w.
Proof.
  intros Hraise. revert amis_json w.
  induction before as [|r before IH]; intros amis_json w; cbn [app get_ami_list_from].
  - unfold bind at 1. now rewrite get_ami_list_region_eq, Hraise.
  - unfold bind.
    destruct (get_ami_list_region ec2 r date version owner amis_json w)
      as [w1 [amis1| |]]; auto.
Qed.

(** An exception other than [ClientError] ends the run. *)
Lemma get_ami_list_from_abort regions region class_name amis_json w :
  In region regions ->
  images_of region = Raises (OtherError class_name) ->
  exists w' class_name',
    get_ami_list_from ec2 regions date version owner amis_json w
    = (w', Raise (OtherError class_name')).
Proof.
  intros Hin Hraise. revert amis_json w.
  induction regions as [|r regions IH]; intros amis_json w; [destruct Hin|].
  cbn [get_ami_list_from]. unfold bind. rewrite get_ami_list_region_eq.
  destruct (images_of r) as [images|[code|other]] eqn:E.
  - destruct Hin as [->|Hin]; [unfold images_of in *; congruence|].
    destruct (Nat.eqb (List.length (match_images images)) 0); now apply IH.
  - destruct Hin as [->|Hin]; [unfold images_of in *; congruence|].
    now apply IH.
  - eauto.
Qed.

(** Without such an exception the run returns a result. *)
Lemma get_ami_list_from_ok regions amis_json w :
  (forall region class_name,
     In region regions -> images_of region <> Raises (OtherError class_name)) ->
  exists w' result,
    get_ami_list_from ec2 regions date version owner amis_json w
    = (w', Ok result).
Proof.
  revert amis_json w.
  induction regions as [|r regions IH]; intros amis_json w Hok.
  - cbn. unfold ret. eauto.
  - cbn [get_ami_list_from]. unfold bind. rewrite get_ami_list_region_eq.
    assert (Hrest : forall region class_name,
              In region regions ->
              images_of region <> Raises (OtherError class_name)).
    { intros region class_name Hin. apply Hok. now right. }
    destruct (images_of r) as [images|[code|other]] eqn:E.
    + destruct (Nat.eqb (List.length (match_images images)) 0); now apply IH.
    + now apply IH.
    + exfalso. apply (Hok r other); [now left | unfold images_of in *; exact E].
Qed.

(** The loop body in terms of [discovered] and [unmatched]. *)
Lemma get_ami_list_region_step region amis_json w w1 amis_json1 :
  get_ami_list_region ec2 region date version owner amis_json w
  = (w1, Ok amis_json1) ->
  amis_json1 = match discovered ec2 date version owner region with
               | Some entry => dict_set region entry amis_json
               | None => amis_json
               end /\
  stdout w1
  = (stdout w ++
     if unmatched ec2 date version owner region
     then [no_amis_warning region] else [])%list /\
  fs w1 = fs w /\ written w1 = written w.
Proof.
  rewrite get_ami_list_region_eq. unfold discovered, unmatched.
  fold (images_of region).
  destruct (images_of region) as [images|[code|other]].
  - cbv zeta.
    destruct (Nat.eqb (List.length (match_images images)) 0);
      intros [= <- <-]; cbn; rewrite ?app_nil_r; auto.
  - intros [= <- <-]. rewrite app_nil_r. auto.
  - discriminate.
Qed.

(** The result and the output of a run that returned. *)
Lemma get_ami_list_from_result regions amis_json w w' result :
  get_ami_list_from ec2 regions date version owner amis_json w = (w', Ok result) ->
  (forall region entry,
     In region regions ->
     discovered ec2 date version owner region = Some entry ->
     dict_get region result = Some entry) /\
  (forall region,
     ~ In region regions \/ discovered ec2 date version owner region = None ->
     dict_get region result = dict_get region amis_json) /\
  stdout w'
  = (stdout w ++
     map no_amis_warning (filter (unmatched ec2 date version owner) regions))%list /\
  fs w' = fs w /\ written w' = written w.
Proof.
  revert amis_json w.
  induction regions as [|r regions IH]; intros amis_json w Hrun.
  - cbn in Hrun. injection Hrun as <- <-. cbn. rewrite app_nil_r.
    repeat split; trivial. intros region entry [].
  - cbn [get_ami_list_from] in Hrun. unfold bind in Hrun.
    destruct (get_ami_list_region ec2 r date version owner amis_json w)
      as [w1 [amis_json1| |]] eqn:Hstep; try discriminate.
    apply get_ami_list_region_step in Hstep.
    destruct Hstep as (Hacc & Hout1 & Hfs1 & Hwr1).
    apply IH in Hrun. destruct Hrun as (Hsome & Hnone & Hout & Hfs & Hwr).
    split; [|split; [|split; [|split; congruence]]].
    + intros region entry Hin Hd.
      destruct (in_dec string_dec region regions) as [Hin'|Hnin'];
        [now apply Hsome|].
      destruct Hin as [<-|Hin]; [|contradiction].
      rewrite Hnone by now left.
      rewrite Hacc, Hd. apply dict_get_set_eq.
    + intros region Hcase.
      rewrite Hnone by (destruct Hcase; [left; cbn in *; tauto | now right]).
      rewrite Hacc.
      destruct (discovered ec2 date version owner r) as [entry|] eqn:Hd;
        [|reflexivity].
      apply dict_get_set_neq. intros ->.
      destruct Hcase as [Hnin|Hnone']; [apply Hnin; now left | congruence].
    + rewrite Hout, Hout1. cbn [filter].
      destruct (unmatched ec2 date version owner r); cbn [map];
        now rewrite <- app_assoc.
Qed.

End Discovery.

(** The entry computed for a region holds, for each tag, the last match. *)
Lemma discovered_get ec2 date version owner region tag fragment id :
  In (tag, fragment) distros ->
  (exists amis,
     discovered ec2 date version owner region = Some amis /\
     dict_get tag amis = Some id) <->
  last_match fragment
    (returned_images (describe_images ec2 region owner (name_filter version date)))
    id.
Proof.
  intros Htag. rewrite <- (match_images_get _ _ _ _ Htag). unfold discovered.
  destruct (describe_images ec2 region owner (name_filter version date))
    as [images|e]; cbn [returned_images].
  - cbv zeta.
    destruct (Nat.eqb (List.length (match_images images)) 0) eqn:Elen.
    + apply Nat.eqb_eq, length_zero_iff_nil in Elen. rewrite Elen.
      split; [intros (amis & H & _) | intros H]; discriminate.
    + split.
      * intros (amis & [= <-] & Hget).
        now rewrite sorted_dict_get in Hget by apply match_images_wf.
      * intros Hget. eexists. split; [reflexivity|].
        now rewrite sorted_dict_get by apply match_images_wf.
  - split; [intros (amis & H & _) | intros H]; discriminate.
Qed.



(** The entry of a queried region in the result of a run. *)
Lemma get_ami_list_entry ec2 regions date version owner w w' result region :
  get_ami_list ec2 regions date version owner w = (w', Ok result) ->
  In region regions ->
  dict_get region result = discovered ec2 date version owner region.
Proof.
  intros Hrun Hin. apply get_ami_list_from_result in Hrun.
  destruct Hrun as (Hsome & Hnone & _).
  destruct (discovered ec2 date version owner region) as [entry|] eqn:Hd.
  - now apply Hsome.
  - rewrite Hnone by now right. reflexivity.
Qed.




(** C1. In a run that returns, for a queried region and a configured distro
    tag, an image id is recorded under (region, tag) exactly when the
    fragment of the tag is a substring of the name of some image returned
    for the region, and the id recorded is that of the last such image in
    response order. *)
Theorem discovery_records_last_match
    ec2 regions date version owner w w' result region tag fragment :
  get_ami_list ec2 regions date version owner w = (w', Ok result) ->
  In region regions ->
  In (tag, fragment) distros ->
  let images :=
    returned_images (describe_images ec2 region owner (name_filter version date))
  in
  ((exists id, recorded result region tag id) <->
   (exists img, In img images /\ is_substring fragment (Name img))) /\
  (forall id, recorded result region tag id <-> last_match fragment images id).
Proof.
  intros Hrun Hin Htag images.
  assert (Hlast : forall id,
            recorded result region tag id <-> last_match fragment images id).
  { intros id. unfold recorded.
    rewrite (get_ami_list_entry _ _ _ _ _ _ _ _ _ Hrun Hin).
    now apply discovered_get. }
  split; [|exact Hlast]. split.
  - intros [id Hid]. apply Hlast in Hid.
    destruct Hid as (before & img & after & Heq & Hsub & _).
    exists img. split; [|exact Hsub].
    rewrite Heq. apply in_or_app. right. now left.
  - intros (img & Himg & Hsub).
    destruct (dict_get tag (match_images images)) as [id|] eqn:Hget.
    + exists id. apply Hlast. now apply (match_images_get _ _ _ _ Htag).
    + exfalso. now apply (match_images_some _ _ _ _ Htag Himg Hsub).
Qed.

Lemma discovery_records_last_match_witness :
  snd (sample_get_ami_list ["us-east-1"; "cn-north-1"])
  = Ok [("us-east-1", [("alinux", "ami-3"); ("ubuntu1604", "ami-1")])] /\
  (forall id,
     recorded [("us-east-1", [("alinux", "ami-3"); ("ubuntu1604", "ami-1")])]
       "us-east-1" "alinux" id
     <-> last_match "amzn" sample_images id).
Proof.
  split; [reflexivity|].
  refine (proj2 (discovery_records_last_match
                   sample_provider ["us-east-1"; "cn-north-1"]
                   "201811" "2.0.0" "247102896272" sample_world _ _
                   "us-east-1" "alinux" "amzn" eq_refl _ _));
    simpl; tauto.
Defined.

(** C9. In a run that returns, the distro tags of the inner mapping of every
    region of the result are in strictly increasing lexicographic order,
    whatever the provider answered. *)
Theorem discovered_tags_sorted
    ec2 regions date version owner w w' result region amis :
  get_ami_list ec2 regions date version owner w = (w', Ok result) ->
  dict_get region result = Some amis ->
  StronglySorted str_lt (keys amis).
Proof.
  intros Hrun Hget.
  pose proof (get_ami_list_from_result _ _ _ _ _ _ _ _ _ Hrun)
    as (Hsome & Hnone & _).
  destruct (in_dec string_dec region regions) as [Hin|Hnin].
  - rewrite (get_ami_list_entry _ _ _ _ _ _ _ _ _ Hrun Hin) in Hget.
    unfold discovered in Hget.
    destruct (describe_images ec2 region owner (name_filter version date))
      as [images|e]; [|discriminate].
    cbv zeta in Hget.
    destruct (Nat.eqb (List.length (match_images images)) 0); [discriminate|].
    injection Hget as <-. apply sorted_dict_keys.
  - rewrite Hnone in Hget by now left. discriminate.
Qed.

Lemma discovered_tags_sorted_witness :
  StronglySorted str_lt ["alinux"; "ubuntu1604"].
Proof.
  exact (discovered_tags_sorted
           sample_provider ["us-east-1"; "cn-north-1"]
           "201811" "2.0.0" "247102896272" sample_world _ _
           "us-east-1" [("alinux", "ami-3"); ("ubuntu1604", "ami-1")]
           eq_refl eq_refl).
Defined.




(** What the handler [except ClientError: pass] does.  A region whose
    request raises [ClientError], whatever its error code, is skipped: the
    run goes on as if the region were not in the list.  An exception that
    is not a [ClientError] in a queried region ends the run with an
    exception, and without one the run returns a result. *)
Theorem client_errors_skip_other_errors_abort
    ec2 regions date version owner w :
  (forall before region after code,
     regions = (before ++ region :: after)%list ->
     describe_images ec2 region owner (name_filter version date)
     = Raises (ClientError code) ->
     get_ami_list ec2 regions date version owner w
     = get_ami_list ec2 (before ++ after) date version owner w) /\
  (forall region class_name,
     In region regions ->
     describe_images ec2 region owner (name_filter version date)
     = Raises (OtherError class_name) ->
     exists w' class_name',
       get_ami_list ec2 regions date version owner w
       = (w', Raise (OtherError class_name'))) /\
  ((forall region class_name,
      In region regions ->
      describe_images ec2 region owner (name_filter version date)
      <> Raises (OtherError class_name)) ->
   exists w' result,
     get_ami_list ec2 regions date version owner w = (w', Ok result)).
Proof.
  unfold get_ami_list. split; [|split].
  - intros before region after code -> Hraise.
    eapply get_ami_list_from_skip, Hraise.
  - intros region class_name. apply get_ami_list_from_abort.
  - apply get_ami_list_from_ok.
Qed.

Lemma client_errors_skip_other_errors_abort_witness :
  sample_get_ami_list ["us-east-1"; "sa-east-1"; "me-south-1"]
  = sample_get_ami_list ["us-east-1"; "me-south-1"] /\
  exists w' class_name,
    sample_get_ami_list ["us-east-1"; "sa-east-1"; "me-south-1"]
    = (w', Raise (OtherError class_name)).
Proof.
  destruct (client_errors_skip_other_errors_abort
              sample_provider ["us-east-1"; "sa-east-1"; "me-south-1"]
              "201811" "2.0.0" "247102896272"
              sample_world) as (Hskip & Habort & _).
  split.
  - exact (Hskip ["us-east-1"] "sa-east-1" ["me-south-1"] "RequestLimitExceeded"
             eq_refl eq_refl).
  - refine (Habort "me-south-1" "EndpointConnectionError" _ eq_refl).
    simpl; tauto.
Defined.

(** C2. The claim asks that a provider error other than an authorization
    rejection abort the run, and the comment of the handler names the
    regions on which the account is not authorized.  The code does not keep
    to it: a request refused for throttling ([RequestLimitExceeded]) is not
    an authorization rejection, yet the run does not abort; the region is
    skipped and the run returns an empty result. *)
Lemma throttled_region_does_not_abort :
  sample_images_of "sa-east-1" = Raises (ClientError "RequestLimitExceeded") /\
  is_authorization_rejection (ClientError "RequestLimitExceeded") = false /\
  snd (sample_get_ami_list ["sa-east-1"]) = Ok [] /\
  ~ exists e, snd (sample_get_ami_list ["sa-east-1"]) = Raise e.
Proof.
  split; [reflexivity|]. split; [reflexivity|]. split; [reflexivity|].
  intros [e H]. discriminate.
Qed.

(** * Further properties *)

(** ** The region enumerator *)

(** [get_all_aws_regions] returns the region names of the provider in
    lexicographic order, each as often as the provider listed it, and
    leaves the world alone; an exception of the provider is passed on. *)
Theorem get_all_aws_regions_sorted (ec2 : provider) (region : string) (w : world) :
  (forall names,
     describe_regions ec2 region = Returns names ->
     exists regions,
       get_all_aws_regions ec2 region w = (w, Ok regions) /\
       StronglySorted str_le regions /\
       Permutation regions names) /\
  (forall e,
     describe_regions ec2 region = Raises e ->
     get_all_aws_regions ec2 region w = (w, Raise e)).
Proof.
  unfold get_all_aws_regions, bind, request. split.
  - intros names ->. exists (sorted names). cbn.
    split; [reflexivity|]. split; [apply sorted_sorted | apply sorted_perm].
  - intros e ->. reflexivity.
Qed.

Lemma get_all_aws_regions_sorted_witness :
  exists regions,
    get_all_aws_regions sample_provider "us-east-1" sample_world
    = (sample_world, Ok regions) /\
    StronglySorted str_le regions /\
    Permutation regions ["us-east-1"; "cn-north-1"; "eu-west-1"; "ap-south-1"].
Proof.
  exact (proj1 (get_all_aws_regions_sorted sample_provider "us-east-1"
                  sample_world) _ eq_refl).
Defined.

(** ** More on the template merger *)

Lemma dict_get_Some_key {V} (k : string) (v : V) (d : dict V) :
  dict_get k d = Some v -> In k (keys d).
Proof.
  intros Hget. destruct (in_dec string_dec k (keys d)) as [Hin|Hnin]; trivial.
  apply dict_get_None in Hnin. congruence.
Qed.

Lemma dict_set_set {V} (k : string) (v v' : V) (d : dict V) :
  dict_set k v (dict_set k v' d) = dict_set k v d.
Proof.
  induction d as [|[k0 v0] d IH]; simpl.
  - now rewrite String.eqb_refl.
  - destruct (String.eqb k k0) eqn:E; simpl.
    + now rewrite String.eqb_refl.
    + now rewrite E, IH.
Qed.

Lemma keys_dict_update {V} (k : string) (d other : dict V) :
  In k (keys (dict_update d other)) <-> In k (keys d) \/ In k (keys other).
Proof.
  unfold dict_update. revert d.
  induction other as [|[k0 v0] other IH]; simpl; intros d; [tauto|].
  rewrite IH, keys_dict_set. intuition.
Qed.

(** What a successful merge computes and writes. *)
Lemma update_cfn_template_eq path amis_to_update w cfn_data mappings current_amis :
  fs w path = Some (JsonFile cfn_data) ->
  dict_get "Mappings" cfn_data = Some (MappingsObject mappings) ->
  dict_get "AWSRegionOS2AMI" mappings = Some (AmiMapping current_amis) ->
  let ordered_amis :=
    OrderedDict (sorted_items (dict_update current_amis amis_to_update)) in
  update_cfn_template path amis_to_update w
  = ({| stdout := stdout w;
        fs := fun p =>
                if String.eqb p path then
                  Some (JsonFile
                          (dict_set "Mappings"
                             (MappingsObject
                                (dict_set "AWSRegionOS2AMI"
                                   (AmiMapping ordered_amis) mappings))
                             cfn_data))
                else fs w p;
        written := (written w ++ [path])%list |},
     Ok ordered_amis).
Proof.
  intros Hfile Hmappings Hamis.
  unfold update_cfn_template, bind, json_load, write_file, ret.
  rewrite Hfile, Hmappings, Hamis. reflexivity.
Qed.

Lemma template_amis_inv w path current_amis :
  template_amis w path = Some current_amis ->
  exists cfn_data mappings,
    fs w path = Some (JsonFile cfn_data) /\
    dict_get "Mappings" cfn_data = Some (MappingsObject mappings) /\
    dict_get "AWSRegionOS2AMI" mappings = Some (AmiMapping current_amis).
Proof.
  unfold template_amis.
  destruct (fs w path) as [[cfn_data|]|]; try discriminate.
  destruct (dict_get "Mappings" cfn_data) as [[m|]|] eqn:Hm; try discriminate.
  destruct (dict_get "AWSRegionOS2AMI" m) as [[amis|]|] eqn:Ha; try discriminate.
  intros [= ->]. eauto.
Qed.

(** A successful merge rewrites only the [AWSRegionOS2AMI] entry of the
    [Mappings] object of the template: every other top-level entry and
    every other mapping keeps its value, the keys of both objects keep
    their order, and no other file changes. *)
Theorem update_cfn_template_keeps_document
    path amis_to_update w w' ordered_amis :
  update_cfn_template path amis_to_update w = (w', Ok ordered_amis) ->
  exists cfn_data mappings cfn_data' mappings',
    fs w path = Some (JsonFile cfn_data) /\
    dict_get "Mappings" cfn_data = Some (MappingsObject mappings) /\
    fs w' path = Some (JsonFile cfn_data') /\
    dict_get "Mappings" cfn_data' = Some (MappingsObject mappings') /\
    keys cfn_data' = keys cfn_data /\
    (forall k, k <> "Mappings" -> dict_get k cfn_data' = dict_get k cfn_data) /\
    keys mappings' = keys mappings /\
    (forall k, k <> "AWSRegionOS2AMI" ->
               dict_get k mappings' = dict_get k mappings) /\
    (forall p, p <> path -> fs w' p = fs w p).
Proof.
  intros Hrun.
  destruct (update_cfn_template_inv _ _ _ _ _ Hrun) as (cur & Hcur & _).
  destruct (template_amis_inv _ _ _ Hcur) as (cfn_data & m & Hfile & Hm & Ha).
  rewrite (update_cfn_template_eq _ amis_to_update _ _ _ _ Hfile Hm Ha) in Hrun.
  injection Hrun as <- _.
  eexists cfn_data, m, _, _. cbn [fs]. rewrite String.eqb_refl.
  split; [exact Hfile|]. split; [exact Hm|]. split; [reflexivity|].
  split; [apply dict_get_set_eq|].
  split; [apply keys_dict_set_old; eapply dict_get_Some_key; eauto|].
  split; [intros k Hk; apply dict_get_set_neq; congruence|].
  split; [apply keys_dict_set_old; eapply dict_get_Some_key; eauto|].
  split; [intros k Hk; apply dict_get_set_neq; congruence|].
  intros p' Hp. apply String.eqb_neq in Hp. now rewrite Hp.
Qed.

Lemma update_cfn_template_keeps_document_witness :
  dict_get "AWSTemplateFormatVersion" sample_template
  = Some (OtherEntry (JStr "2010-09-09")) /\
  exists cfn_data mappings cfn_data' mappings',
    fs sample_world sample_path = Some (JsonFile cfn_data) /\
    dict_get "Mappings" cfn_data = Some (MappingsObject mappings) /\
    fs (fst sample_merge) sample_path = Some (JsonFile cfn_data') /\
    dict_get "Mappings" cfn_data' = Some (MappingsObject mappings') /\
    keys cfn_data' = keys cfn_data /\
    (forall k, k <> "Mappings" -> dict_get k cfn_data' = dict_get k cfn_data) /\
    keys mappings' = keys mappings /\
    (forall k, k <> "AWSRegionOS2AMI" ->
               dict_get k mappings' = dict_get k mappings) /\
    (forall p, p <> sample_path -> fs (fst sample_merge) p = fs sample_world p).
Proof.
  split; [reflexivity|].
  exact (update_cfn_template_keeps_document sample_path sample_discovery
           sample_world _ _ eq_refl).
Defined.

(** A document without a mapping field makes the merge raise
    [AttributeError] in an unchanged world. *)
Lemma update_cfn_template_lacks_amis path amis_to_update w cfn_data :
  fs w path = Some (JsonFile cfn_data) ->
  lacks_amis cfn_data = true ->
  update_cfn_template path amis_to_update w
  = (w, Raise (OtherError "AttributeError")).
Proof.
  unfold lacks_amis, update_cfn_template, bind, json_load, raise, ret.
  intros ->.
  destruct (dict_get "Mappings" cfn_data) as [[m|j]|]; try reflexivity.
  destruct (dict_get "AWSRegionOS2AMI" m) as [[amis|j]|];
    [discriminate | reflexivity | reflexivity].
Qed.

Lemma update_cfn_template_missing path amis_to_update w :
  fs w path = None ->
  exists class_name,
    update_cfn_template path amis_to_update w
    = (w, Raise (OtherError class_name)).
Proof.
  unfold update_cfn_template, bind, json_load. intros ->. eauto.
Qed.

(** The merge raises and writes nothing, the world staying as it was, when
    the template file does not exist, and, with [AttributeError], when the
    document has no mapping field to merge into: its [Mappings] entry or the
    [AWSRegionOS2AMI] entry of its [Mappings] object is missing or is not
    an object. *)
Theorem update_cfn_template_unreadable path amis_to_update w :
  (fs w path = None ->
   exists class_name,
     update_cfn_template path amis_to_update w
     = (w, Raise (OtherError class_name))) /\
  (forall cfn_data,
     fs w path = Some (JsonFile cfn_data) ->
     lacks_amis cfn_data = true ->
     update_cfn_template path amis_to_update w
     = (w, Raise (OtherError "AttributeError"))).
Proof.
  split.
  - apply update_cfn_template_missing.
  - intros cfn_data. apply update_cfn_template_lacks_amis.
Qed.

Lemma update_cfn_template_unreadable_witness :
  (exists class_name,
     update_cfn_template "missing.cfn.json" sample_discovery sample_world
     = (sample_world, Raise (OtherError class_name))) /\
  update_cfn_template sample_path sample_discovery sample_world_no_mapping
  = (sample_world_no_mapping, Raise (OtherError "AttributeError")).
Proof.
  split.
  - exact (proj1 (update_cfn_template_unreadable "missing.cfn.json"
                    sample_discovery sample_world) eq_refl).
  - exact (proj2 (update_cfn_template_unreadable sample_path
                    sample_discovery sample_world_no_mapping)
             _ eq_refl eq_refl).
Defined.

(** The regions of the merged mapping are those of the template together
    with those of the new discovery set: none is lost, none is made up. *)
Theorem merged_regions_union
    path amis_to_update w w' ordered_amis current_amis region :
  update_cfn_template path amis_to_update w = (w', Ok ordered_amis) ->
  template_amis w path = Some current_amis ->
  In region (keys ordered_amis) <->
  In region (keys current_amis) \/ In region (keys amis_to_update).
Proof.
  intros Hrun Hcur.
  apply update_cfn_template_inv in Hrun.
  destruct Hrun as (cur & Hcur' & -> & _).
  assert (cur = current_amis) as -> by congruence.
  unfold OrderedDict. rewrite keys_dict_update. cbn [keys map In].
  rewrite <- keys_dict_update.
  split.
  - intros [[]|Hin]. revert Hin. unfold keys.
    apply Permutation_in, Permutation_map, sorted_items_perm.
  - intros Hin. right. revert Hin. unfold keys.
    apply Permutation_in, Permutation_map. symmetry. apply sorted_items_perm.
Qed.

Lemma merged_regions_union_witness :
  In "eu-west-1" (keys sample_merged) <->
  In "eu-west-1" ["us-east-1"; "ap-south-1"] \/
  In "eu-west-1" (keys sample_discovery).
Proof.
  exact (merged_regions_union sample_path sample_discovery sample_world
           _ _ _ "eu-west-1" eq_refl eq_refl).
Defined.

(** ** Merging twice *)

Lemma sorted_head_absent {V} (k : string) (d : dict V) :
  StronglySorted str_lt (k :: keys d) -> dict_get k d = None.
Proof.
  intros Hs. apply dict_get_None. intros Hin.
  apply StronglySorted_inv in Hs. destruct Hs as [_ Hall].
  rewrite Forall_forall in Hall. apply (str_lt_irrefl k (Hall k Hin)).
Qed.

Lemma sorted_head_least {V} (k k0 : string) (v v0 : V) (d : dict V) :
  StronglySorted str_lt (keys ((k0, v0) :: d)) ->
  dict_get k ((k0, v0) :: d) = Some v ->
  k = k0 /\ v = v0 \/ str_lt k0 k.
Proof.
  cbn [keys map fst dict_get]. intros Hs.
  destruct (String.eqb_spec k k0) as [->|Hne].
  - intros [= ->]. now left.
  - intros Hget. right. apply dict_get_Some_key in Hget.
    apply StronglySorted_inv in Hs. destruct Hs as [_ Hall].
    rewrite Forall_forall in Hall. now apply Hall.
Qed.

(** Two dicts with strictly increasing keys that agree on every key are the
    same list of items. *)
Lemma sorted_dict_ext {V} (a b : dict V) :
  StronglySorted str_lt (keys a) ->
  StronglySorted str_lt (keys b) ->
  (forall k, dict_get k a = dict_get k b) ->
  a = b.
Proof.
  revert b. induction a as [|[ka va] a IH]; intros [|[kb vb] b] Ha Hb Hext.
  - reflexivity.
  - specialize (Hext kb). cbn in Hext. rewrite String.eqb_refl in Hext.
    discriminate.
  - specialize (Hext ka). cbn in Hext. rewrite String.eqb_refl in Hext.
    discriminate.
  - assert (Hka : dict_get ka ((kb, vb) :: b) = Some va).
    { rewrite <- Hext. cbn. now rewrite String.eqb_refl. }
    assert (Hkb : dict_get kb ((ka, va) :: a) = Some vb).
    { rewrite Hext. cbn. now rewrite String.eqb_refl. }
    apply (sorted_head_least _ _ _ _ _ Hb) in Hka.
    apply (sorted_head_least _ _ _ _ _ Ha) in Hkb.
    assert (Heq : ka = kb /\ va = vb).
    { destruct Hka as [?|Hlt]; [assumption|].
      destruct Hkb as [[-> ->]|Hlt']; [now split|].
      exfalso. apply (str_lt_irrefl _ (str_lt_trans _ _ _ Hlt Hlt')). }
    destruct Heq as [<- <-]. f_equal.
    apply IH.
    + now apply StronglySorted_inv in Ha.
    + now apply StronglySorted_inv in Hb.
    + intros k. destruct (String.eqb_spec k ka) as [->|Hne].
      * now rewrite !sorted_head_absent.
      * specialize (Hext k). cbn in Hext.
        apply String.eqb_neq in Hne. now rewrite Hne in Hext.
Qed.

(** Merging the same discovery set a second time returns the same mapping
    and leaves every file as the first merge wrote it. *)
Theorem merge_idempotent
    path amis_to_update w w1 ordered_amis current_amis :
  update_cfn_template path amis_to_update w = (w1, Ok ordered_amis) ->
  template_amis w path = Some current_amis ->
  dict_wf current_amis ->
  dict_wf amis_to_update ->
  exists w2,
    update_cfn_template path amis_to_update w1 = (w2, Ok ordered_amis) /\
    forall p, fs w2 p = fs w1 p.
Proof.
  intros Hrun Hcur Hwf Hwf'.
  destruct (template_amis_inv _ _ _ Hcur) as (cfn_data & m & Hfile & Hm & Ha).
  rewrite (update_cfn_template_eq _ amis_to_update _ _ _ _ Hfile Hm Ha) in Hrun.
  injection Hrun as <- <-.
  set (ordered := OrderedDict (sorted_items (dict_update current_amis amis_to_update))).
  assert (Hsame : OrderedDict (sorted_items (dict_update ordered amis_to_update))
                  = ordered).
  { apply sorted_dict_ext; try apply sorted_dict_keys.
    intros k. rewrite sorted_dict_get
      by (apply dict_update_wf, OrderedDict_wf).
    unfold ordered at 2. rewrite merged_get by assumption.
    destruct (dict_get k amis_to_update) as [v|] eqn:Hk.
    - now rewrite !(dict_update_get_new _ _ _ _ Hwf' Hk).
    - rewrite !dict_update_get_old by assumption.
      unfold ordered. rewrite merged_get by assumption.
      now apply dict_update_get_old. }
  match goal with
  | |- exists w2, update_cfn_template _ _ ?w1 = _ /\ _ =>
      assert (Hfile1 : fs w1 path
                = Some (JsonFile
                          (dict_set "Mappings"
                             (MappingsObject
                                (dict_set "AWSRegionOS2AMI"
                                   (AmiMapping ordered) m))
                             cfn_data)))
        by (cbn [fs]; now rewrite String.eqb_refl);
      pose proof (update_cfn_template_eq path amis_to_update w1 _ _ _ Hfile1
                    (dict_get_set_eq _ _ _) (dict_get_set_eq _ _ _)) as Hrun2
  end.
  cbv zeta in Hrun2. rewrite Hsame, !dict_set_set in Hrun2.
  eexists. split; [exact Hrun2|].
  intros p. cbn [fs]. destruct (String.eqb p path); reflexivity.
Qed.

Lemma merge_idempotent_witness :
  exists w2,
    update_cfn_template sample_path sample_discovery (fst sample_merge)
    = (w2, Ok sample_merged) /\
    forall p, fs w2 p = fs (fst sample_merge) p.
Proof.
  refine (merge_idempotent sample_path sample_discovery sample_world _ _ _
            eq_refl eq_refl _ _); solve_wf.
Defined.

(** ** More on the image discoverer *)

Section DiscoveryEffects.

Variable ec2 : provider.
Variables date version owner : string.

(** The loop body never exits.  It raises only an exception of the request
    that is not a [ClientError], before printing anything; and when it
    returns, the request raised no such exception. *)
Lemma get_ami_list_region_fails region amis_json w w1 out :
  get_ami_list_region ec2 region date version owner amis_json w = (w1, out) ->
  (forall status, out <> Exit status) /\
  (forall e, out = Raise e ->
     w1 = w /\
     describe_images ec2 region owner (name_filter version date) = Raises e /\
     exists class_name, e = OtherError class_name) /\
  (forall amis_json1, out = Ok amis_json1 ->
     forall class_name,
       describe_images ec2 region owner (name_filter version date)
       <> Raises (OtherError class_name)).
Proof.
  rewrite get_ami_list_region_eq.
  destruct (describe_images ec2 region owner (name_filter version date))
    as [images|[code|other]].
  - destruct (Nat.eqb (List.length (match_images images)) 0);
      intros [= <- <-]; repeat split; discriminate.
  - intros [= <- <-]; repeat split; discriminate.
  - intros [= <- <-]. split; [discriminate|]. split; [|discriminate].
    intros e [= <-]. eauto.
Qed.

(** What a run does to the world, however it ends. *)
Lemma get_ami_list_from_world regions amis_json w w' out :
  get_ami_list_from ec2 regions date version owner amis_json w = (w', out) ->
  fs w' = fs w /\ written w' = written w /\
  exists queried rest,
    regions = (queried ++ rest)%list /\
    stdout w'
    = (stdout w ++
       map no_amis_warning (filter (unmatched ec2 date version owner) queried))%list /\
    (forall region class_name,
       In region queried ->
       describe_images ec2 region owner (name_filter version date)
       <> Raises (OtherError class_name)) /\
    (forall result, out = Ok result -> rest = []) /\
    (forall status, out <> Exit status) /\
    (forall e, out = Raise e ->
       exists region rest' class_name,
         rest = region :: rest' /\
         e = OtherError class_name /\
         describe_images ec2 region owner (name_filter version date) = Raises e).
Proof.
  revert amis_json w.
  induction regions as [|r regions IH]; intros amis_json w Hrun.
  - cbn in Hrun. injection Hrun as <- <-.
    split; [reflexivity|]. split; [reflexivity|].
    exists [], []. cbn. rewrite app_nil_r.
    split; [reflexivity|]. split; [reflexivity|].
    split; [intros region class_name []|].
    split; [reflexivity|]. split; discriminate.
  - cbn [get_ami_list_from] in Hrun. unfold bind in Hrun.
    destruct (get_ami_list_region ec2 r date version owner amis_json w)
      as [w1 out1] eqn:Hstep.
    pose proof (get_ami_list_region_fails _ _ _ _ _ Hstep)
      as (Hexit & Hraise & Hok).
    destruct out1 as [amis_json1|status|e].
    + apply get_ami_list_region_step in Hstep.
      destruct Hstep as (_ & Hout1 & Hfs1 & Hwr1).
      apply IH in Hrun.
      destruct Hrun as (Hfs & Hwr & queried & rest & -> & Hout & Hq & Hrest).
      split; [congruence|]. split; [congruence|].
      exists (r :: queried), rest. split; [reflexivity|].
      split; [|split; [|exact Hrest]].
      * rewrite Hout, Hout1. cbn [filter].
        destruct (unmatched ec2 date version owner r); cbn [map];
          now rewrite <- app_assoc.
      * intros region class_name [<-|Hin]; [now apply (Hok amis_json1) | auto].
    + now destruct (Hexit status).
    + injection Hrun as <- <-.
      destruct (Hraise e eq_refl) as (-> & Hreq & class_name & ->).
      split; [reflexivity|]. split; [reflexivity|].
      exists [], (r :: regions). cbn. rewrite app_nil_r.
      split; [reflexivity|]. split; [reflexivity|].
      split; [intros region cn []|].
      split; [discriminate|]. split; [discriminate|].
      intros e' [= <-]. exists r, regions, class_name. auto.
Qed.

(** The result of a run is a dict: no region occurs twice. *)
Lemma get_ami_list_from_wf regions amis_json w w' result :
  get_ami_list_from ec2 regions date version owner amis_json w = (w', Ok result) ->
  dict_wf amis_json -> dict_wf result.
Proof.
  revert amis_json w.
  induction regions as [|r regions IH]; intros amis_json w Hrun Hwf.
  - cbn in Hrun. now injection Hrun as <- <-.
  - cbn [get_ami_list_from] in Hrun. unfold bind in Hrun.
    destruct (get_ami_list_region ec2 r date version owner amis_json w)
      as [w1 [amis_json1| |]] eqn:Hstep; try discriminate.
    apply get_ami_list_region_step in Hstep. destruct Hstep as (-> & _).
    apply IH in Hrun; [assumption|].
    destruct (discovered ec2 date version owner r);
      [now apply dict_set_wf | assumption].
Qed.

End DiscoveryEffects.

(** Discovery changes no file, and prints nothing but warnings: one for
    each queried region whose images matched nothing, in the order of the
    region list.  The regions queried are a prefix of the list in which no
    request raised an exception other than [ClientError].  A run that
    returns has queried every region; a run that raises stopped at the next
    region, the first whose request raised an exception other than
    [ClientError], and raises that exception: a [ClientError] never ends
    the run.  Discovery never exits. *)
Theorem get_ami_list_effects ec2 regions date version owner w w' out :
  get_ami_list ec2 regions date version owner w = (w', out) ->
  fs w' = fs w /\ written w' = written w /\
  exists queried rest,
    regions = (queried ++ rest)%list /\
    stdout w'
    = (stdout w ++
       map no_amis_warning (filter (unmatched ec2 date version owner) queried))%list /\
    (forall region class_name,
       In region queried ->
       describe_images ec2 region owner (name_filter version date)
       <> Raises (OtherError class_name)) /\
    (forall result, out = Ok result -> rest = []) /\
    (forall status, out <> Exit status) /\
    (forall e, out = Raise e ->
       exists region rest' class_name,
         rest = region :: rest' /\
         e = OtherError class_name /\
         describe_images ec2 region owner (name_filter version date) = Raises e).
Proof. apply get_ami_list_from_world. Qed.

Lemma get_ami_list_effects_witness :
  snd (sample_get_ami_list sample_regions)
  = Raise (OtherError "EndpointConnectionError") /\
  fs (fst (sample_get_ami_list sample_regions)) = fs sample_world /\
  written (fst (sample_get_ami_list sample_regions)) = written sample_world /\
  exists queried rest,
    sample_regions = (queried ++ rest)%list /\
    stdout (fst (sample_get_ami_list sample_regions))
    = (stdout sample_world ++
       map no_amis_warning
         (filter (unmatched sample_provider "201811" "2.0.0" "247102896272")
            queried))%list /\
    (forall region class_name,
       In region queried ->
       sample_images_of region <> Raises (OtherError class_name)) /\
    (forall result,
       snd (sample_get_ami_list sample_regions) = Ok result -> rest = []) /\
    (forall status,
       snd (sample_get_ami_list sample_regions) <> Exit status) /\
    (forall e,
       snd (sample_get_ami_list sample_regions) = Raise e ->
       exists region rest' class_name,
         rest = region :: rest' /\
         e = OtherError class_name /\
         sample_images_of region = Raises e).
Proof.
  split; [reflexivity|].
  exact (get_ami_list_effects sample_provider sample_regions
           "201811" "2.0.0" "247102896272" sample_world _ _ eq_refl).
Defined.

(** Only configured tags are ever assigned. *)
Lemma match_pass_keys (ds : dict string) img k amis :
  In k (keys
          (fold_left
             (fun amis kv =>
                if str_in (snd kv) (Name img)
                then dict_set (fst kv) (ImageId img) amis else amis)
             ds amis)) ->
  In k (keys amis) \/ In k (keys ds).
Proof.
  revert amis. induction ds as [|[tag fragment] ds IH]; simpl; intros amis Hin;
    [tauto|].
  apply IH in Hin. destruct Hin as [Hin|Hin]; [|tauto].
  destruct (str_in fragment (Name img)); [|tauto].
  apply keys_dict_set in Hin. destruct Hin as [->|Hin]; auto.
Qed.

Lemma match_images_keys images k :
  In k (keys (match_images images)) -> In k (keys distros).
Proof.
  induction images as [|img images IH] using rev_ind; [intros []|].
  rewrite match_images_snoc. unfold match_distros. intros Hin.
  destruct (match_pass_keys distros img k (match_images images) Hin)
    as [Hold|Hnew]; [exact (IH Hold) | exact Hnew].
Qed.

(** An entry of the result belongs to a queried region and is the entry
    computed for it. *)
Lemma get_ami_list_entry_inv ec2 regions date version owner w w' result region amis :
  get_ami_list ec2 regions date version owner w = (w', Ok result) ->
  dict_get region result = Some amis ->
  In region regions /\ discovered ec2 date version owner region = Some amis.
Proof.
  intros Hrun Hget.
  pose proof (get_ami_list_from_result _ _ _ _ _ _ _ _ _ Hrun)
    as (Hsome & Hnone & _).
  destruct (in_dec string_dec region regions) as [Hin|Hnin].
  - split; [assumption|].
    destruct (discovered ec2 date version owner region) as [entry|] eqn:Hd.
    + rewrite (Hsome _ _ Hin Hd) in Hget. exact Hget.
    + rewrite Hnone in Hget by now right. discriminate.
  - rewrite Hnone in Hget by now left. discriminate.
Qed.

Lemma discovered_inv ec2 date version owner region amis :
  discovered ec2 date version owner region = Some amis ->
  exists images,
    describe_images ec2 region owner (name_filter version date) = Returns images /\
    match_images images <> [] /\
    amis = OrderedDict (sorted_items (match_images images)).
Proof.
  unfold discovered.
  destruct (describe_images ec2 region owner (name_filter version date))
    as [images|e]; [|discriminate].
  cbv zeta.
  destruct (Nat.eqb_spec (List.length (match_images images)) 0) as [|Hlen];
    [discriminate|].
  intros [= <-]. exists images. repeat split.
  intros Hnil. apply Hlen. now rewrite Hnil.
Qed.

(** What the result of a discovery holds is sound: its regions are pairwise
    different queried regions, no region has an empty mapping, and every id
    recorded under a tag is the id of an image returned for that region
    whose name contains the fragment of that tag, a configured one. *)
Theorem discovery_result_sound ec2 regions date version owner w w' result :
  get_ami_list ec2 regions date version owner w = (w', Ok result) ->
  dict_wf result /\
  (forall region amis,
     dict_get region result = Some amis -> In region regions /\ amis <> []) /\
  (forall region tag id,
     recorded result region tag id ->
     exists fragment img,
       In (tag, fragment) distros /\
       In img (returned_images
                 (describe_images ec2 region owner (name_filter version date))) /\
       is_substring fragment (Name img) /\
       ImageId img = id).
Proof.
  intros Hrun. split; [|split].
  - eapply get_ami_list_from_wf; [exact Hrun | constructor].
  - intros region amis Hget.
    destruct (get_ami_list_entry_inv _ _ _ _ _ _ _ _ _ _ Hrun Hget) as [Hin Hd].
    split; [assumption|].
    apply discovered_inv in Hd. destruct Hd as (images & _ & Hne & ->).
    intros Hnil. apply Hne.
    apply Permutation_nil. rewrite <- Hnil.
    apply sorted_dict_perm, match_images_wf.
  - intros region tag id (amis & Hget & Htag).
    destruct (get_ami_list_entry_inv _ _ _ _ _ _ _ _ _ _ Hrun Hget) as [_ Hd].
    apply discovered_inv in Hd. destruct Hd as (images & Hreq & _ & ->).
    rewrite sorted_dict_get in Htag by apply match_images_wf.
    pose proof (match_images_keys _ _ (dict_get_Some_key _ _ _ Htag)) as Hkey.
    unfold keys in Hkey. apply in_map_iff in Hkey.
    destruct Hkey as ([tag' fragment] & Heq & Hin). cbn in Heq. subst tag'.
    apply (match_images_get _ _ _ _ Hin) in Htag.
    destruct Htag as (before & img & after & Himgs & Hsub & Hid & _).
    exists fragment, img. rewrite Hreq. cbn [returned_images].
    repeat split; trivial.
    rewrite Himgs. apply in_or_app. right. now left.
Qed.

Lemma discovery_result_sound_witness :
  dict_wf [("us-east-1", [("alinux", "ami-3"); ("ubuntu1604", "ami-1")])] /\
  (forall region amis,
     dict_get region
       [("us-east-1", [("alinux", "ami-3"); ("ubuntu1604", "ami-1")])]
     = Some amis ->
     In region ["us-east-1"; "cn-north-1"; "eu-west-1"] /\ amis <> []).
Proof.
  destruct (discovery_result_sound sample_provider
              ["us-east-1"; "cn-north-1"; "eu-west-1"]
              "201811" "2.0.0" "247102896272" sample_world _ _ eq_refl)
    as (Hwf & Hregions & _).
  split; [exact Hwf | exact Hregions].
Defined.

(** ** More on the command line driver *)

Lemma get_all_aws_regions_eq ec2 region w :
  get_all_aws_regions ec2 region w
  = match describe_regions ec2 region with
    | Returns names => (w, Ok (sorted names))
    | Raises e => (w, Raise e)
    end.
Proof.
  unfold get_all_aws_regions, bind, request.
  destruct (describe_regions ec2 region); reflexivity.
Qed.

(** The stages [main] runs for a supported partition. *)
Lemma main_supported ec2 a w account_id region :
  partition_account (partition a) = Some (account_id, region) ->
  main ec2 a w
  = (regions <- get_all_aws_regions ec2 region ;;
     amis_dict <- get_ami_list ec2 regions (date a) (version a) account_id ;;
     cfn_amis <- update_cfn_template (cloudformation_template a) amis_dict ;;
     update_amis_txt (txt_file a) cfn_amis) w.
Proof.
  unfold partition_account, main.
  destruct (String.eqb (partition a) "commercial");
    [intros [= <- <-]; reflexivity|].
  destruct (String.eqb (partition a) "govcloud");
    [intros [= <- <-]; reflexivity|].
  destruct (String.eqb (partition a) "china");
    [intros [= <- <-]; reflexivity | discriminate].
Qed.

Lemma main_unsupported ec2 a w :
  partition_account (partition a) = None ->
  snd (main ec2 a w) = Exit 1.
Proof.
  unfold partition_account, main.
  destruct (String.eqb (partition a) "commercial"); [discriminate|].
  destruct (String.eqb (partition a) "govcloud"); [discriminate|].
  destruct (String.eqb (partition a) "china"); [discriminate|].
  reflexivity.
Qed.

Lemma template_amis_fs w w' path :
  fs w' = fs w -> template_amis w' path = template_amis w path.
Proof. unfold template_amis. now intros ->. Qed.

(** A run of [main] that ends normally was given a supported partition,
    enumerated the regions, discovered the images of the sorted regions with
    the account of the partition, merged the discovery into the template and
    wrote the report of the merged mapping: the template file is written
    first and the report second, the report file holds the text of the
    merged mapping (also when both paths are the same, the report then
    replacing the template), and no other file changes. *)
Theorem main_success ec2 a w w' :
  main ec2 a w = (w', Ok tt) ->
  exists account_id region names w1 amis_dict current_amis,
    partition_account (partition a) = Some (account_id, region) /\
    describe_regions ec2 region = Returns names /\
    get_ami_list ec2 (sorted names) (date a) (version a) account_id w
    = (w1, Ok amis_dict) /\
    template_amis w (cloudformation_template a) = Some current_amis /\
    let merged := OrderedDict (sorted_items (dict_update current_amis amis_dict)) in
    stdout w' = stdout w1 /\
    written w'
    = (written w ++ [cloudformation_template a; txt_file a])%list /\
    fs w' (txt_file a) = Some (TextFile (convert_json_to_txt merged)) /\
    (txt_file a <> cloudformation_template a ->
     template_amis w' (cloudformation_template a) = Some merged) /\
    (forall p, p <> cloudformation_template a -> p <> txt_file a ->
               fs w' p = fs w p).
Proof.
  intros Hrun.
  destruct (partition_account (partition a)) as [[account_id region]|] eqn:Hp.
  2:{ apply (main_unsupported ec2 a w) in Hp. rewrite Hrun in Hp. discriminate. }
  rewrite (main_supported ec2 a w _ _ Hp) in Hrun.
  unfold bind at 1 in Hrun. unfold get_all_aws_regions, bind at 1, request in Hrun.
  destruct (describe_regions ec2 region) as [names|e] eqn:Hnames;
    [|discriminate].
  cbn [ret] in Hrun. unfold bind at 1 in Hrun.
  destruct (get_ami_list ec2 (sorted names) (date a) (version a) account_id w)
    as [w1 [amis_dict| |]] eqn:Hdisc; try discriminate.
  pose proof (get_ami_list_from_world _ _ _ _ _ _ _ _ _ Hdisc)
    as (Hfs1 & Hwr1 & _).
  unfold bind at 1 in Hrun.
  destruct (update_cfn_template (cloudformation_template a) amis_dict w1)
    as [w2 [cfn_amis| |]] eqn:Hmerge; try discriminate.
  destruct (update_cfn_template_inv _ _ _ _ _ Hmerge) as (cur & Hcur & _).
  destruct (template_amis_inv _ _ _ Hcur) as (cfn_data & m & Hfile & Hm & Ha).
  rewrite (update_cfn_template_eq _ amis_dict _ _ _ _ Hfile Hm Ha) in Hmerge.
  injection Hmerge as <- <-.
  unfold update_amis_txt, write_file in Hrun. injection Hrun as <-.
  exists account_id, region, names, w1, amis_dict, cur.
  split; [first [reflexivity | exact Hp]|].
  split; [first [reflexivity | exact Hnames]|].
  split; [first [reflexivity | exact Hdisc]|].
  split; [now rewrite <- (template_amis_fs w w1 _ Hfs1)|].
  cbv zeta. cbn [stdout written fs].
  split; [reflexivity|].
  split; [now rewrite Hwr1, <- app_assoc|].
  split; [now rewrite String.eqb_refl|].
  split.
  - intros Hne. unfold template_amis. cbn [fs].
    apply not_eq_sym, String.eqb_neq in Hne. rewrite Hne, String.eqb_refl.
    now rewrite !dict_get_set_eq.
  - intros p Htpl Htxt. apply String.eqb_neq in Htpl, Htxt.
    now rewrite Htxt, Htpl, Hfs1.
Qed.

Lemma main_success_witness :
  snd (sample_main "commercial") = Ok tt /\
  exists account_id region names w1 amis_dict current_amis,
    partition_account "commercial" = Some (account_id, region) /\
    describe_regions sample_provider region = Returns names /\
    get_ami_list sample_provider (sorted names) "201811" "2.0.0" account_id
      sample_world
    = (w1, Ok amis_dict) /\
    template_amis sample_world sample_path = Some current_amis /\
    let merged := OrderedDict (sorted_items (dict_update current_amis amis_dict)) in
    stdout (fst (sample_main "commercial")) = stdout w1 /\
    written (fst (sample_main "commercial"))
    = (written sample_world ++ [sample_path; "amis.txt"])%list /\
    fs (fst (sample_main "commercial")) "amis.txt"
    = Some (TextFile (convert_json_to_txt merged)) /\
    ("amis.txt" <> sample_path ->
     template_amis (fst (sample_main "commercial")) sample_path = Some merged) /\
    (forall p, p <> sample_path -> p <> "amis.txt" ->
               fs (fst (sample_main "commercial")) p = fs sample_world p).
Proof.
  split; [reflexivity|].
  exact (main_success sample_provider (sample_args "commercial") sample_world
           _ eq_refl).
Defined.

(** For a supported partition, an exception of the region enumeration ends
    [main] with that exception in an unchanged world; and an exception
    other than [ClientError] in the discovery of one of the enumerated
    regions ends [main] with such an exception before any file is written. *)
Theorem main_fails_before_writing ec2 a w account_id region :
  partition_account (partition a) = Some (account_id, region) ->
  (forall e,
     describe_regions ec2 region = Raises e ->
     main ec2 a w = (w, Raise e)) /\
  (forall names failing class_name,
     describe_regions ec2 region = Returns names ->
     In failing names ->
     describe_images ec2 failing account_id (name_filter (version a) (date a))
     = Raises (OtherError class_name) ->
     exists w' class_name',
       main ec2 a w = (w', Raise (OtherError class_name')) /\
       fs w' = fs w /\ written w' = written w).
Proof.
  intros Hp. rewrite (main_supported ec2 a w _ _ Hp).
  split.
  - intros e Hnames. unfold bind at 1.
    now rewrite get_all_aws_regions_eq, Hnames.
  - intros names failing class_name Hnames Hin Hraise.
    unfold bind at 1. rewrite get_all_aws_regions_eq, Hnames.
    unfold bind at 1.
    assert (Hin' : In failing (sorted names)).
    { eapply Permutation_in; [symmetry; apply sorted_perm | exact Hin]. }
    destruct (get_ami_list_from_abort ec2 (date a) (version a) account_id
                (sorted names) failing class_name [] w Hin' Hraise)
      as (w' & class_name' & Hrun).
    change (get_ami_list ec2 (sorted names) (date a) (version a) account_id w
            = (w', Raise (OtherError class_name'))) in Hrun.
    rewrite Hrun. exists w', class_name'. split; [reflexivity|].
    apply get_ami_list_from_world in Hrun. tauto.
Qed.

Lemma main_fails_before_writing_witness :
  exists w' class_name',
    main sample_provider_unreachable (sample_args "commercial") sample_world
    = (w', Raise (OtherError class_name')) /\
    fs w' = fs sample_world /\ written w' = written sample_world.
Proof.
  refine (proj2 (main_fails_before_writing sample_provider_unreachable
                   (sample_args "commercial") sample_world
                   "247102896272" "us-east-1" eq_refl)
            ["us-east-1"; "me-south-1"] "me-south-1" "EndpointConnectionError"
            eq_refl _ eq_refl).
  simpl; tauto.
Defined.

(** For a supported partition whose regions were enumerated and discovered,
    a template file that does not exist, or whose document has no mapping
    field to merge into, ends [main] with an exception after the discovery,
    its warnings printed, and before any file is written. *)
Theorem main_unreadable_template
    ec2 a w account_id region names w1 amis_dict :
  partition_account (partition a) = Some (account_id, region) ->
  describe_regions ec2 region = Returns names ->
  get_ami_list ec2 (sorted names) (date a) (version a) account_id w
  = (w1, Ok amis_dict) ->
  (fs w (cloudformation_template a) = None \/
   exists cfn_data,
     fs w (cloudformation_template a) = Some (JsonFile cfn_data) /\
     lacks_amis cfn_data = true) ->
  exists class_name,
    main ec2 a w = (w1, Raise (OtherError class_name)) /\
    fs w1 = fs w /\ written w1 = written w.
Proof.
  intros Hp Hnames Hdisc Htemplate.
  rewrite (main_supported ec2 a w _ _ Hp).
  unfold bind at 1. rewrite get_all_aws_regions_eq, Hnames.
  unfold bind at 1. rewrite Hdisc.
  pose proof (get_ami_list_from_world _ _ _ _ _ _ _ _ _ Hdisc)
    as (Hfs1 & Hwr1 & _).
  rewrite <- Hfs1 in Htemplate.
  unfold bind at 1.
  destruct Htemplate as [Hmissing|(cfn_data & Hfile & Hlacks)].
  - destruct (update_cfn_template_missing _ amis_dict _ Hmissing)
      as [class_name Hraise].
    exists class_name. rewrite Hraise. auto.
  - exists "AttributeError".
    rewrite (update_cfn_template_lacks_amis _ amis_dict _ _ Hfile Hlacks).
    auto.
Qed.

Lemma main_unreadable_template_witness :
  exists class_name,
    main sample_provider sample_args_no_template sample_world
    = (fst (sample_get_ami_list
              (sorted ["us-east-1"; "cn-north-1"; "eu-west-1"; "ap-south-1"])),
       Raise (OtherError class_name)) /\
    fs (fst (sample_get_ami_list
               (sorted ["us-east-1"; "cn-north-1"; "eu-west-1"; "ap-south-1"])))
    = fs sample_world /\
    written (fst (sample_get_ami_list
                    (sorted ["us-east-1"; "cn-north-1"; "eu-west-1"; "ap-south-1"])))
    = written sample_world.
Proof.
  exact (main_unreadable_template sample_provider sample_args_no_template
           sample_world "247102896272" "us-east-1"
           ["us-east-1"; "cn-north-1"; "eu-west-1"; "ap-south-1"] _ _
           eq_refl eq_refl eq_refl (or_introl eq_refl)).
Defined.

(** ** More on the text report *)

Lemma region_lines_agree tag (m m' : dict (dict string)) :
  Forall2 (fun x y => fst x = fst y /\ dict_get tag (snd x) = dict_get tag (snd y))
    m m' ->
  region_lines tag m = region_lines tag m'.
Proof.
  unfold region_lines, has_tag, region_line, dict_mem.
  induction 1 as [|x y m m' [Hregion Htag] _ IH]; [reflexivity|].
  cbn [filter]. rewrite <- Htag.
  destruct (dict_get tag (snd x)) as [ami|] eqn:E; [|exact IH].
  cbn [map]. rewrite <- Htag, E, Hregion, IH. reflexivity.
Qed.

Lemma report_lines_agree tags (m m' : dict (dict string)) :
  (forall tag, In tag tags -> region_lines tag m = region_lines tag m') ->
  report_lines tags m = report_lines tags m'.
Proof.
  unfold report_lines, section_lines.
  induction tags as [|tag tags IH]; intros Hagree; [reflexivity|].
  cbn [flat_map]. rewrite (Hagree tag (or_introl eq_refl)), IH; [reflexivity|].
  intros tag' Hin. apply Hagree. now right.
Qed.

(** The report shows the configured tags only: two mappings with the same
    regions in the same order whose entries agree on every configured tag
    have the same report, whatever other tags their entries hold. *)
Theorem report_ignores_other_tags (m m' : dict (dict string)) :
  Forall2
    (fun x y =>
       fst x = fst y /\
       forall tag, In tag (keys distros) ->
                   dict_get tag (snd x) = dict_get tag (snd y))
    m m' ->
  convert_json_to_txt m = convert_json_to_txt m'.
Proof.
  intros Hagree. rewrite !convert_json_to_txt_lines. f_equal.
  apply report_lines_agree. intros tag Hin.
  apply region_lines_agree.
  eapply Forall2_impl; [|exact Hagree].
  intros x y [Hregion Htags]. split; [assumption|]. now apply Htags.
Qed.

Lemma report_ignores_other_tags_witness :
  convert_json_to_txt
    [("us-east-1", [("alinux", "ami-111"); ("ubuntu1804", "ami-333")])]
  = convert_json_to_txt [("us-east-1", [("alinux", "ami-111")])].
Proof.
  apply report_ignores_other_tags.
  constructor; [|constructor].
  split; [reflexivity|].
  intros tag Hin. simpl in Hin.
  repeat (destruct Hin as [<-|Hin]; [reflexivity|]). destruct Hin.
Defined.
